(** * NodeModal: editing one node of a JSON document

    A shallow embedding of [src/features/modals/NodeModal/index.tsx] and of
    the part of the JavaScript runtime it runs on: strings as sequences of
    UTF-16 code units, numbers by their decimal value, JSON values as a tree,
    [JSON.parse], [JSON.stringify], and property reads and writes on those
    values. *)

From Stdlib Require Import ZArith NArith List String Ascii Lia Bool.
From Stdlib Require DecimalN DecimalPos.
From stdpp Require Import base option list gmap.
Import ListNotations.

Local Open Scope N_scope.

(** ** The JavaScript runtime *)

Module JS.

(** *** Strings

    A JavaScript string is a sequence of 16-bit code units. *)

Definition jsstring := list N.

Definition chr (a : ascii) : N := N_of_ascii a.
Arguments chr a%_char.

(** The code units of an ASCII literal. *)
Definition js (s : string) : jsstring := map N_of_ascii (list_ascii_of_string s).
Arguments js s%_string.

(** The same, with every apostrophe of the literal standing for a double
    quote: [jq "{'a':1}"] is the text of an object with the key a. *)
Definition jq (s : string) : jsstring :=
  map (fun c => if c =? 39 then 34 else c) (js s).
Arguments jq s%_string.

Fixpoint join (sep : jsstring) (parts : list jsstring) : jsstring :=
  match parts with
  | [] => []
  | [p] => p
  | p :: rest => p ++ sep ++ join sep rest
  end.

Definition is_digit (c : N) : bool := (chr "0" <=? c) && (c <=? chr "9").
Definition digit_value (c : N) : N := c - chr "0".
Definition digit_char (d : N) : N := chr "0" + d.

(** Split off the longest prefix whose characters satisfy [p]. *)
Fixpoint span (p : N -> bool) (s : jsstring) : jsstring * jsstring :=
  match s with
  | c :: rest =>
      if p c then let '(a, b) := span p rest in (c :: a, b) else ([], s)
  | [] => ([], [])
  end.

(** *** Numbers

    A number is kept by its decimal value [mantissa * 10 ^ exponent], in
    normal form: the mantissa of a non-zero number does not end in the digit
    0, and zero is [Num 0 0] (the sign of zero is not observable through
    [String] and [JSON.stringify], which both print "0").  This is the value
    the runtime holds whenever the decimal literal is exactly representable
    as an IEEE double with at most 15 significant digits; rounding of longer
    literals and overflow to infinity are not modelled. *)

Record number := Num { mantissa : Z; exponent : Z }.

(** The digits of a natural number, most significant first. *)
Fixpoint uint_digits (u : Decimal.uint) : list N :=
  match u with
  | Decimal.Nil => []
  | Decimal.D0 u => 0 :: uint_digits u
  | Decimal.D1 u => 1 :: uint_digits u
  | Decimal.D2 u => 2 :: uint_digits u
  | Decimal.D3 u => 3 :: uint_digits u
  | Decimal.D4 u => 4 :: uint_digits u
  | Decimal.D5 u => 5 :: uint_digits u
  | Decimal.D6 u => 6 :: uint_digits u
  | Decimal.D7 u => 7 :: uint_digits u
  | Decimal.D8 u => 8 :: uint_digits u
  | Decimal.D9 u => 9 :: uint_digits u
  end.

Definition digits_of_N (n : N) : list N := uint_digits (N.to_uint n).

Definition N_of_digits (ds : list N) : N :=
  fold_left (fun acc d => 10 * acc + d) ds 0.

(** The decimal numeral of a natural number, as a string. *)
Definition decimal (n : N) : jsstring := map digit_char (digits_of_N n).

(** Drop the zeros at the end of a digit sequence and count them. *)
Definition strip_trailing_zeros (ds : list N) : list N * nat :=
  let '(zeros, rest) := span (N.eqb 0) (rev ds) in (rev rest, length zeros).

(** The number [(-1)^neg * ds * 10^e], in normal form. *)
Definition make_number (neg : bool) (ds : list N) (e : Z) : number :=
  let '(ds', z) := strip_trailing_zeros ds in
  let m := Z.of_N (N_of_digits ds') in
  if (m =? 0)%Z then Num 0 0
  else Num (if neg then - m else m)%Z (e + Z.of_nat z)%Z.

Definition number_of_Z (z : Z) : number :=
  make_number (z <? 0)%Z (digits_of_N (Z.abs_N z)) 0.

Definition zeros (n : nat) : jsstring := repeat (chr "0") n.

(** [Number::toString] in radix 10 (ECMA-262, 6.1.6.1.20): with [k] digits
    [ds] of the mantissa and [n = k + exponent], the number is printed in
    positional notation when [-6 < n <= 21] and in exponent notation
    otherwise. *)
Definition Number_toString (x : number) : jsstring :=
  if (mantissa x =? 0)%Z then js "0"
  else
    let ds := map digit_char (digits_of_N (Z.abs_N (mantissa x))) in
    let k := Z.of_nat (length ds) in
    let n := (k + exponent x)%Z in
    let sign := if (mantissa x <? 0)%Z then js "-" else [] in
    let body :=
      if ((k <=? n) && (n <=? 21))%Z then ds ++ zeros (Z.to_nat (n - k))
      else if ((0 <? n) && (n <=? 21))%Z then
        take (Z.to_nat n) ds ++ js "." ++ drop (Z.to_nat n) ds
      else if ((-6 <? n) && (n <=? 0))%Z then
        js "0." ++ zeros (Z.to_nat (- n)) ++ ds
      else
        let e := (n - 1)%Z in
        let esign := if (e <? 0)%Z then js "-" else js "+" in
        let edigits := decimal (Z.abs_N e) in
        match ds with
        | [d] => [d] ++ js "e" ++ esign ++ edigits
        | d :: more => [d] ++ js "." ++ more ++ js "e" ++ esign ++ edigits
        | [] => []
        end
    in sign ++ body.

(** The value of the decimal literal [-? int (. frac)? (e exp)?]. *)
Definition decimal_literal (neg : bool) (int frac : jsstring) (exp : Z) : number :=
  make_number neg (map digit_value (int ++ frac)) (exp - Z.of_nat (length frac)).

(** *** Completions

    A computation returns a value or throws.  [Unmodelled] marks behaviour
    that leaves the part of the runtime this development covers (a property
    found on a built-in prototype, a property of an array that is not an
    element, a property of a string); it is not an exception and no [try]
    catches it. *)

Inductive exn :=
| SyntaxError
| TypeError
| Rejected (reason : jsstring).

Inductive result (A : Type) :=
| Ok (a : A)
| Throw (e : exn)
| Unmodelled.
Arguments Ok {A} a.
Arguments Throw {A} e.
Arguments Unmodelled {A}.

#[global] Instance result_ret : MRet result := fun A a => Ok a.
#[global] Instance result_bind : MBind result := fun A B f m =>
  match m with
  | Ok a => f a
  | Throw e => Throw e
  | Unmodelled => Unmodelled
  end.

(** [try { body } catch { handler }] *)
Definition try_catch {A} (body : result A) (handler : exn -> result A) : result A :=
  match body with
  | Throw e => handler e
  | r => r
  end.

(** *** Values

    The values a parsed document is made of.  An array element [None] is a
    hole; [undefined] occurs nowhere else in a document. Object properties
    are listed in enumeration order. *)

#[warnings="-register-all"]
Inductive json :=
| VNull
| VBool (b : bool)
| VNumber (n : number)
| VString (s : jsstring)
| VArray (elems : list (option json))
| VObject (props : list (jsstring * json)).

(** *** Own properties of objects *)

(** An array index is a canonical numeric string below [2^32 - 1]. *)
Definition array_index (k : jsstring) : option N :=
  match k with
  | [] => None
  | c :: rest =>
      if forallb is_digit k && (negb (c =? chr "0") || bool_decide (rest = [])) then
        let n := N_of_digits (map digit_value k) in
        if n <? 4294967295 then Some n else None
      else None
  end.

Section Properties.
Context {V : Type}.

Fixpoint obj_lookup (props : list (jsstring * V)) (k : jsstring) : option V :=
  match props with
  | [] => None
  | (k', v) :: rest => if decide (k' = k) then Some v else obj_lookup rest k
  end.

Fixpoint obj_replace (props : list (jsstring * V)) (k : jsstring) (v : V)
  : list (jsstring * V) :=
  match props with
  | [] => []
  | (k', v') :: rest =>
      if decide (k' = k) then (k', v) :: rest else (k', v') :: obj_replace rest k v
  end.

(** A new index key goes before the first larger index and before all other
    keys. *)
Fixpoint obj_insert_index (props : list (jsstring * V)) (n : N)
    (k : jsstring) (v : V) : list (jsstring * V) :=
  match props with
  | [] => [(k, v)]
  | (k', v') :: rest =>
      match array_index k' with
      | Some m =>
          if n <? m then (k, v) :: props
          else (k', v') :: obj_insert_index rest n k v
      | None => (k, v) :: props
      end
  end.

(** [CreateDataProperty] on an ordinary object: an existing key keeps its
    place; a new key is enumerated after the existing ones, except that
    array indices come first in ascending order. *)
Definition obj_define (props : list (jsstring * V)) (k : jsstring) (v : V)
  : list (jsstring * V) :=
  match obj_lookup props k with
  | Some _ => obj_replace props k v
  | None =>
      match array_index k with
      | Some n => obj_insert_index props n k v
      | None => props ++ [(k, v)]
      end
  end.

End Properties.

(** *** JSON.parse: tokens *)

Inductive token :=
| TLBrace | TRBrace | TLBracket | TRBracket | TColon | TComma
| TNull | TTrue | TFalse
| TNumber (n : number)
| TString (s : jsstring).

Definition is_ws (c : N) : bool :=
  (c =? 32) || (c =? 9) || (c =? 10) || (c =? 13).
Definition is_lower (c : N) : bool := (chr "a" <=? c) && (c <=? chr "z").
Definition is_number_char (c : N) : bool :=
  is_digit c || (c =? chr "-") || (c =? chr "+") || (c =? chr ".")
  || (c =? chr "e") || (c =? chr "E").

Definition hex_value (c : N) : option N :=
  if is_digit c then Some (c - chr "0")
  else if (chr "a" <=? c) && (c <=? chr "f") then Some (c - chr "a" + 10)
  else if (chr "A" <=? c) && (c <=? chr "F") then Some (c - chr "A" + 10)
  else None.

(** A non-empty run of digits at the head of [s]. *)
Definition digits1 (s : jsstring) : option (jsstring * jsstring) :=
  match span is_digit s with
  | ([], _) => None
  | r => Some r
  end.

(** The JSON number grammar: an optional minus sign; an integer part, which
    is a single 0 or a run of digits that starts with a non-zero digit; an
    optional fraction, a dot and at least one digit; an optional exponent,
    e or E, an optional sign and at least one digit. *)
Definition json_number (s : jsstring) : option number :=
  let '(neg, s) :=
    match s with
    | c :: rest => if c =? chr "-" then (true, rest) else (false, s)
    | [] => (false, s)
    end in
  '(int, s) ← digits1 s;
  if bool_decide (int ≠ [chr "0"]) && bool_decide (head int = Some (chr "0"))
  then None
  else
    '(frac, s) ←
      match s with
      | c :: rest => if c =? chr "." then digits1 rest else Some ([], s)
      | [] => Some ([], s)
      end;
    match s with
    | [] => Some (decimal_literal neg int frac 0)
    | c :: rest =>
        if (c =? chr "e") || (c =? chr "E") then
          let '(eneg, rest) :=
            match rest with
            | d :: rest' =>
                if d =? chr "-" then (true, rest')
                else if d =? chr "+" then (false, rest')
                else (false, rest)
            | [] => (false, rest)
            end in
          '(ds, rest) ← digits1 rest;
          match rest with
          | [] =>
              let e := Z.of_N (N_of_digits (map digit_value ds)) in
              Some (decimal_literal neg int frac (if eneg then - e else e))
          | _ => None
          end
        else None
    end.

Definition json_word (s : jsstring) : option token :=
  if decide (s = js "null") then Some TNull
  else if decide (s = js "true") then Some TTrue
  else if decide (s = js "false") then Some TFalse
  else None.

(** The tokenizer reads one code unit at a time.  A number or a literal name
    is collected up to the first character that cannot continue it and is
    then checked as a whole; in a well-formed text only white space or
    punctuation can follow one, so this accepts the same texts as the JSON
    grammar. The accumulated characters are kept in reverse. *)
Inductive lexstate :=
| LIdle
| LWord (acc : jsstring)
| LNumber (acc : jsstring)
| LString (acc : jsstring)
| LEscape (acc : jsstring)
| LUnicode (acc : jsstring) (hex : list N).

Definition lex_idle (c : N) : option (lexstate * list token) :=
  if is_ws c then Some (LIdle, [])
  else if c =? chr "{" then Some (LIdle, [TLBrace])
  else if c =? chr "}" then Some (LIdle, [TRBrace])
  else if c =? chr "[" then Some (LIdle, [TLBracket])
  else if c =? chr "]" then Some (LIdle, [TRBracket])
  else if c =? chr ":" then Some (LIdle, [TColon])
  else if c =? chr "," then Some (LIdle, [TComma])
  else if c =? 34 then Some (LString [], [])
  else if is_digit c || (c =? chr "-") then Some (LNumber [c], [])
  else if is_lower c then Some (LWord [c], [])
  else None.

(** The token a pending number or name stands for. *)
Definition lex_flush (st : lexstate) : option (list token) :=
  match st with
  | LIdle => Some []
  | LWord acc =>
      match json_word (rev acc) with
      | Some t => Some [t]
      | None => None
      end
  | LNumber acc =>
      match json_number (rev acc) with
      | Some n => Some [TNumber n]
      | None => None
      end
  | _ => None
  end.

Definition lex_step (st : lexstate) (c : N) : option (lexstate * list token) :=
  match st with
  | LIdle => lex_idle c
  | LWord acc =>
      if is_lower c then Some (LWord (c :: acc), [])
      else
        ts ← lex_flush st;
        '(st', ts') ← lex_idle c;
        Some (st', ts ++ ts')
  | LNumber acc =>
      if is_number_char c then Some (LNumber (c :: acc), [])
      else
        ts ← lex_flush st;
        '(st', ts') ← lex_idle c;
        Some (st', ts ++ ts')
  | LString acc =>
      if c =? 34 then Some (LIdle, [TString (rev acc)])
      else if c =? chr "\" then Some (LEscape acc, [])
      else if c <? 32 then None
      else Some (LString (c :: acc), [])
  | LEscape acc =>
      if (c =? 34) || (c =? chr "\") || (c =? chr "/") then Some (LString (c :: acc), [])
      else if c =? chr "b" then Some (LString (8 :: acc), [])
      else if c =? chr "f" then Some (LString (12 :: acc), [])
      else if c =? chr "n" then Some (LString (10 :: acc), [])
      else if c =? chr "r" then Some (LString (13 :: acc), [])
      else if c =? chr "t" then Some (LString (9 :: acc), [])
      else if c =? chr "u" then Some (LUnicode acc [], [])
      else None
  | LUnicode acc hex =>
      match hex_value c with
      | Some h =>
          match hex with
          | [a; b; d] => Some (LString ((((a * 16 + b) * 16 + d) * 16 + h) :: acc), [])
          | _ => Some (LUnicode acc (hex ++ [h]), [])
          end
      | None => None
      end
  end.

Fixpoint lex_from (st : lexstate) (s : jsstring) : option (list token) :=
  match s with
  | [] => lex_flush st
  | c :: rest =>
      '(st', ts) ← lex_step st c;
      ts' ← lex_from st' rest;
      Some (ts ++ ts')
  end.

Definition lex (s : jsstring) : option (list token) := lex_from LIdle s.

(** *** JSON.parse: the grammar

    A pushdown automaton over the tokens.  The stack holds the containers
    being built, innermost first: an array with its elements so far (in
    reverse), an object with its properties so far and the key whose value is
    awaited. *)

Inductive frame :=
| FArray (done : list (option json))
| FObject (done : list (jsstring * json)) (key : jsstring).

Inductive expect :=
| EValue         (* a value *)
| EValueOrClose  (* just after "[": a value or "]" *)
| EKey           (* after "," in an object: a key *)
| EKeyOrClose    (* just after "{": a key or "}" *)
| EColon         (* after a key *)
| ESeparator.    (* after a member: "," or the closing bracket *)

Inductive pstate :=
| Expect (e : expect) (stack : list frame)
| Finished (v : json).

(** A value is complete: it is the whole text, or a member of the innermost
    container. *)
Definition complete (v : json) (stack : list frame) : pstate :=
  match stack with
  | [] => Finished v
  | FArray done :: outer => Expect ESeparator (FArray (Some v :: done) :: outer)
  | FObject done key :: outer =>
      Expect ESeparator (FObject (obj_define done key v) [] :: outer)
  end.

Definition close_array (stack : list frame) : option pstate :=
  match stack with
  | FArray done :: outer => Some (complete (VArray (rev done)) outer)
  | _ => None
  end.

Definition close_object (stack : list frame) : option pstate :=
  match stack with
  | FObject done _ :: outer => Some (complete (VObject done) outer)
  | _ => None
  end.

Definition start_value (t : token) (stack : list frame) : option pstate :=
  match t with
  | TNull => Some (complete VNull stack)
  | TTrue => Some (complete (VBool true) stack)
  | TFalse => Some (complete (VBool false) stack)
  | TNumber n => Some (complete (VNumber n) stack)
  | TString s => Some (complete (VString s) stack)
  | TLBracket => Some (Expect EValueOrClose (FArray [] :: stack))
  | TLBrace => Some (Expect EKeyOrClose (FObject [] [] :: stack))
  | _ => None
  end.

Definition read_key (t : token) (stack : list frame) : option pstate :=
  match t, stack with
  | TString k, FObject done _ :: outer => Some (Expect EColon (FObject done k :: outer))
  | _, _ => None
  end.

Definition parse_step (st : pstate) (t : token) : option pstate :=
  match st with
  | Finished _ => None
  | Expect EValue stack => start_value t stack
  | Expect EValueOrClose stack =>
      match t with
      | TRBracket => close_array stack
      | _ => start_value t stack
      end
  | Expect EKey stack => read_key t stack
  | Expect EKeyOrClose stack =>
      match t with
      | TRBrace => close_object stack
      | _ => read_key t stack
      end
  | Expect EColon stack =>
      match t with
      | TColon => Some (Expect EValue stack)
      | _ => None
      end
  | Expect ESeparator stack =>
      match t, stack with
      | TComma, FArray _ :: _ => Some (Expect EValue stack)
      | TComma, FObject _ _ :: _ => Some (Expect EKey stack)
      | TRBracket, _ => close_array stack
      | TRBrace, _ => close_object stack
      | _, _ => None
      end
  end.

Fixpoint parse_tokens (st : pstate) (ts : list token) : option json :=
  match ts with
  | [] =>
      match st with
      | Finished v => Some v
      | _ => None
      end
  | t :: rest => st' ← parse_step st t; parse_tokens st' rest
  end.

Definition parse_text (text : jsstring) : option json :=
  ts ← lex text; parse_tokens (Expect EValue []) ts.

(** [JSON.parse(text)] without a reviver: the value of a well-formed text,
    and a [SyntaxError] for any other. *)
Definition JSON_parse (text : jsstring) : result json :=
  match parse_text text with
  | Some v => Ok v
  | None => Throw SyntaxError
  end.

(** *** JSON.stringify *)

Definition hex_char (d : N) : N :=
  if d <? 10 then chr "0" + d else chr "a" + (d - 10).

(** The escape sequence of a code unit: a backslash, u and four lowercase
    hexadecimal digits. *)
Definition unicode_escape (c : N) : jsstring :=
  [chr "\"; chr "u"; hex_char (c / 4096 mod 16); hex_char (c / 256 mod 16);
   hex_char (c / 16 mod 16); hex_char (c mod 16)].

Definition is_lead_surrogate (c : N) : bool := (55296 <=? c) && (c <=? 56319).
Definition is_trail_surrogate (c : N) : bool := (56320 <=? c) && (c <=? 57343).

(** [QuoteJSONString] without the surrounding quotes: the quote, the
    backslash and control characters are escaped, and so is a surrogate that
    is not part of a pair. *)
Fixpoint quote_chars (s : jsstring) : jsstring :=
  match s with
  | [] => []
  | c :: rest =>
      if c =? 8 then [chr "\"; chr "b"] ++ quote_chars rest
      else if c =? 9 then [chr "\"; chr "t"] ++ quote_chars rest
      else if c =? 10 then [chr "\"; chr "n"] ++ quote_chars rest
      else if c =? 12 then [chr "\"; chr "f"] ++ quote_chars rest
      else if c =? 13 then [chr "\"; chr "r"] ++ quote_chars rest
      else if c =? 34 then [chr "\"; 34] ++ quote_chars rest
      else if c =? chr "\" then [chr "\"; chr "\"] ++ quote_chars rest
      else if c <? 32 then unicode_escape c ++ quote_chars rest
      else if is_lead_surrogate c then
        match rest with
        | d :: rest' =>
            if is_trail_surrogate d then c :: d :: quote_chars rest'
            else unicode_escape c ++ quote_chars rest
        | [] => unicode_escape c
        end
      else if is_trail_surrogate c then unicode_escape c ++ quote_chars rest
      else c :: quote_chars rest
  end.

Definition QuoteJSONString (s : jsstring) : jsstring := [34] ++ quote_chars s ++ [34].

(** The members of an array or an object between their brackets
    ([SerializeJSONArray], [SerializeJSONObject]): [stepback] is the
    indentation outside and [indent] the one inside. *)
Definition bracket (l r : N) (gap stepback indent : jsstring) (parts : list jsstring)
  : jsstring :=
  match parts with
  | [] => [l; r]
  | _ =>
      match gap with
      | [] => [l] ++ join (js ",") parts ++ [r]
      | _ =>
          [l; 10] ++ indent ++ join ([chr ","; 10] ++ indent) parts
          ++ [10] ++ stepback ++ [r]
      end
  end.

(** [SerializeJSONProperty] on a document value; a hole of an array prints
    as null. *)
Fixpoint serialize (gap indent : jsstring) (v : json) : jsstring :=
  match v with
  | VNull => js "null"
  | VBool true => js "true"
  | VBool false => js "false"
  | VNumber n => Number_toString n
  | VString s => QuoteJSONString s
  | VArray elems =>
      bracket (chr "[") (chr "]") gap indent (indent ++ gap)
        (map (fun e => match e with
                       | Some x => serialize gap (indent ++ gap) x
                       | None => js "null"
                       end) elems)
  | VObject props =>
      bracket (chr "{") (chr "}") gap indent (indent ++ gap)
        (map (fun kv => QuoteJSONString (fst kv) ++ js ":"
                        ++ match gap with [] => [] | _ => js " " end
                        ++ serialize gap (indent ++ gap) (snd kv)) props)
  end.

(** [JSON.stringify(v)] *)
Definition JSON_stringify (v : json) : jsstring := serialize [] [] v.

(** [JSON.stringify(v, null, n)]: [n] spaces of indentation per level, at
    most ten. *)
Definition JSON_stringify_indent (n : nat) (v : json) : jsstring :=
  serialize (repeat 32 (Nat.min n 10)) [] v.

(** *** Property access

    [target[k]] and [target[k] = v] in strict mode, for a property key [k].
    Reads see own properties; a key that the target would find on a built-in
    prototype is outside the model.  The names below are the properties of
    [Object.prototype], and those [Number.prototype] adds. *)

Definition object_prototype_names : list jsstring :=
  [js "constructor"; js "hasOwnProperty"; js "isPrototypeOf";
   js "propertyIsEnumerable"; js "toLocaleString"; js "toString"; js "valueOf";
   js "__proto__"; js "__defineGetter__"; js "__defineSetter__";
   js "__lookupGetter__"; js "__lookupSetter__"].

Definition number_prototype_names : list jsstring :=
  [js "toExponential"; js "toFixed"; js "toPrecision"].

Definition inherited (names : list jsstring) (k : jsstring) : bool :=
  bool_decide (k ∈ names).

(** [target[k]]; [None] is [undefined]. *)
Definition js_get (target : json) (k : jsstring) : result (option json) :=
  match target with
  | VNull => Throw TypeError
  | VObject props =>
      match obj_lookup props k with
      | Some v => Ok (Some v)
      | None => if inherited object_prototype_names k then Unmodelled else Ok None
      end
  | VArray elems =>
      match array_index k with
      | Some n => Ok (mjoin (elems !! N.to_nat n))
      | None => Unmodelled
      end
  | VBool _ =>
      if inherited object_prototype_names k then Unmodelled else Ok None
  | VNumber _ =>
      if inherited (object_prototype_names ++ number_prototype_names) k
      then Unmodelled else Ok None
  | VString _ => Unmodelled
  end.

(** [elems[n] = v]: an index past the end extends the array and leaves holes
    in between. *)
Definition array_store (elems : list (option json)) (n : nat) (v : json)
  : list (option json) :=
  if bool_decide (n < length elems)%nat then <[n := Some v]> elems
  else elems ++ replicate (n - length elems) None ++ [Some v].

(** [target[k] = v]; the result is the target after the assignment.
    Assigning to a property of a primitive throws in strict mode; the
    accessor [__proto__] is outside the model. *)
Definition js_set (target : json) (k : jsstring) (v : json) : result json :=
  match target with
  | VNull => Throw TypeError
  | VObject props =>
      match obj_lookup props k with
      | Some _ => Ok (VObject (obj_replace props k v))
      | None =>
          if decide (k = js "__proto__") then Unmodelled
          else Ok (VObject (obj_define props k v))
      end
  | VArray elems =>
      match array_index k with
      | Some n => Ok (VArray (array_store elems (N.to_nat n) v))
      | None => Unmodelled
      end
  | VBool _ | VNumber _ | VString _ =>
      if decide (k = js "__proto__") then Unmodelled else Throw TypeError
  end.

(** [{...v}]: a new object with the own enumerable properties of [v]. *)
Definition spread (v : json) : list (jsstring * json) :=
  match v with
  | VObject props => props
  | VArray elems =>
      omap (fun '(i, e) => x ← e; Some (decimal (N.of_nat i), x))
           (zip (seq 0 (length elems)) elems)
  | VString s => imap (fun i c => (decimal (N.of_nat i), VString [c])) s
  | _ => []
  end.

End JS.

(** ** The node modal *)

Module NodeModal.
Import JS.

(** *** Rows, paths and nodes *)

(** The value of a row: a scalar of the document, or the text the graph
    layer rendered for a nested container. *)
Inductive primitive :=
| PUndefined
| PNull
| PBool (b : bool)
| PNumber (n : number)
| PString (s : jsstring).

(** Modelled from the spec: the row and node types of [types/graph], whose
    declaration is not among the sources.  A row has a key, which is absent
    on an unkeyed scalar node, a value and a type tag; a node has its rows
    and an optional path of object keys and array indices. *)
Record NodeRow := {
  key : option jsstring;
  value : primitive;
  type : jsstring;
}.

Inductive segment :=
| SKey (k : jsstring)
| SIndex (n : number).

Record NodeData := {
  text : list NodeRow;
  path : option (list segment);
}.

(** [String(v)], and [v] inside a template literal. *)
Definition ToString (v : primitive) : jsstring :=
  match v with
  | PUndefined => js "undefined"
  | PNull => js "null"
  | PBool true => js "true"
  | PBool false => js "false"
  | PNumber n => Number_toString n
  | PString s => s
  end.

(** [String] of the value, or of the empty string when the value is [null] or
    [undefined]. *)
Definition stringOrEmpty (v : primitive) : jsstring :=
  match v with
  | PUndefined | PNull => []
  | _ => ToString v
  end.

(** [row.key] is truthy: present and not the empty string. *)
Definition hasKey (row : NodeRow) : bool :=
  match key row with
  | Some (_ :: _) => true
  | _ => false
  end.

(** The key of a row that has one. *)
Definition keyOf (row : NodeRow) : jsstring := default [] (key row).

(** The condition the source repeats wherever it selects the rows to edit or
    to show:
    [row.type !== "array" && row.type !== "object" && row.key &&
     row.key !== "details"]. *)
Definition isEditable (row : NodeRow) : bool :=
  negb (bool_decide (type row = js "array"))
  && negb (bool_decide (type row = js "object"))
  && hasKey row
  && negb (bool_decide (keyOf row = js "details")).

(** *** normalizeNodeData *)

Definition json_of_primitive (v : primitive) : option json :=
  match v with
  | PUndefined => None
  | PNull => Some VNull
  | PBool b => Some (VBool b)
  | PNumber n => Some (VNumber n)
  | PString s => Some (VString s)
  end.

(** [obj[k] = v] on an object literal: [__proto__] is the inherited setter,
    which creates no property of the object, and every other key becomes or
    stays an own property. *)
Definition assignKey (obj : list (jsstring * primitive)) (k : jsstring) (v : primitive)
  : list (jsstring * primitive) :=
  if decide (k = js "__proto__") then obj else obj_define obj k v.

(** The object [obj] that [normalizeNodeData] fills row by row. *)
Definition displayObject (nodeRows : list NodeRow) : list (jsstring * primitive) :=
  fold_left
    (fun obj row => if isEditable row then assignKey obj (keyOf row) (value row) else obj)
    nodeRows [].

(** [JSON.stringify(obj, null, 2)]; a property whose value is [undefined] is
    left out. *)
Definition stringifyDisplay (obj : list (jsstring * primitive)) : jsstring :=
  JSON_stringify_indent 2
    (VObject (omap (fun kv => x ← json_of_primitive (snd kv); Some (fst kv, x)) obj)).

Definition normalizeNodeData (nodeRows : list NodeRow) : jsstring :=
  match nodeRows with
  | [] => js "{}"
  | row :: rest =>
      if bool_decide (rest = []) && negb (hasKey row) then ToString (value row)
      else stringifyDisplay (displayObject nodeRows)
  end.

(** *** jsonPathToString *)

Definition segmentText (seg : segment) : jsstring :=
  match seg with
  | SIndex n => Number_toString n
  | SKey k => [34] ++ k ++ [34]
  end.

Definition jsonPathToString (path : option (list segment)) : jsstring :=
  match path with
  | None | Some [] => js "$"
  | Some path => js "$[" ++ join (js "][") (map segmentText path) ++ js "]"
  end.

(** *** The state of the component *)

Record State := {
  editedValues : gmap nat jsstring;
  editMode : bool;
}.

(** The loop of the effect and of the Cancel button: one entry per editable
    row, at the index of the row. *)
Fixpoint seedRows (idx : nat) (rows : list NodeRow) (map : gmap nat jsstring)
  : gmap nat jsstring :=
  match rows with
  | [] => map
  | row :: rest =>
      seedRows (S idx) rest
        (if isEditable row then <[idx := stringOrEmpty (value row)]> map else map)
  end.

Definition seedEditedValues (nodeData : option NodeData) : gmap nat jsstring :=
  match nodeData with
  | Some node => seedRows 0 (text node) ∅
  | None => ∅
  end.

(** The effect that runs when [opened] or [nodeData] changes. *)
Definition onOpen (opened : bool) (nodeData : option NodeData) (s : State) : State :=
  if opened then {| editedValues := seedEditedValues nodeData; editMode := false |}
  else s.

Definition setEditedValue (idx : nat) (v : jsstring) (s : State) : State :=
  {| editedValues := <[idx := v]> (editedValues s); editMode := editMode s |}.

Definition setEditMode (b : bool) (s : State) : State :=
  {| editedValues := editedValues s; editMode := b |}.

(** The Edit button. *)
Definition onEdit (s : State) : State := setEditMode true s.

(** The Cancel button. *)
Definition onCancel (nodeData : option NodeData) (s : State) : State :=
  {| editedValues := seedEditedValues nodeData; editMode := false |}.

(** *** inferValue *)

(** A match of [/^-?\d+(?:\.\d+)?$/]: the sign, the digits before the dot
    and the digits after it. *)
Definition matchNumeric (val : jsstring) : option (bool * jsstring * jsstring) :=
  let '(neg, s) :=
    match val with
    | c :: rest => if c =? chr "-" then (true, rest) else (false, val)
    | [] => (false, val)
    end in
  '(int, s) ← digits1 s;
  match s with
  | [] => Some (neg, int, [])
  | c :: rest =>
      if c =? chr "." then
        '(frac, s') ← digits1 rest;
        match s' with
        | [] => Some (neg, int, frac)
        | _ => None
        end
      else None
  end.

(** [Number(val)] for a string that matches the pattern. *)
Definition NumberOfMatch (m : bool * jsstring * jsstring) : number :=
  let '(neg, int, frac) := m in decimal_literal neg int frac 0.

Definition inferValue (val : jsstring) : result json :=
  if decide (val = []) then Ok VNull
  else
    try_catch (JSON_parse val) (fun _ =>
      match matchNumeric val with
      | Some m => Ok (VNumber (NumberOfMatch m))
      | None =>
          if decide (val = js "true") then Ok (VBool true)
          else if decide (val = js "false") then Ok (VBool false)
          else Ok (VString val)
      end).

(** *** setAtPath *)

(** A path segment as a property key. *)
Definition propertyKey (p : segment) : jsstring :=
  match p with
  | SKey k => k
  | SIndex n => Number_toString n
  end.

(** [typeof path[i + 1] === "number" ? [] : {}] *)
Definition freshContainer (rest : list segment) : json :=
  match rest with
  | SIndex _ :: _ => VArray []
  | _ => VObject []
  end.

(** The walk of [setAtPath] from [target] along [path], followed by [final]
    on the container it ends in.  The source moves a cursor down the tree
    and mutates in place; here every level returns its container after the
    mutation below it, so the result is the tree the root reference sees
    afterwards. *)
Fixpoint walk (target : json) (path : list segment) (final : json -> result json)
  : result json :=
  match path with
  | [] => final target
  | p :: rest =>
      let k := propertyKey p in
      cur ← js_get target k;
      match cur with
      | Some child =>
          child' ← walk child rest final;
          js_set target k child'
      | None =>
          target' ← js_set target k (freshContainer rest);
          child' ← walk (freshContainer rest) rest final;
          js_set target' k child'
      end
  end.

Definition setAtPath (obj : json) (path : option (list segment))
    (key : option jsstring) (value : json) : result json :=
  match key with
  | None => _ ← walk obj (default [] path) Ok; Ok value
  | Some k => walk obj (default [] path) (fun target => js_set target k value)
  end.

(** *** handleSave *)

(** Modelled from the spec: the file store [useFile] and the adapter
    [jsonAdapter], which are not among the sources.  The store gives the
    contents and the format of the document and persists new contents; the
    adapter converts between contents and JSON.  Each of the three
    asynchronous operations resolves or rejects. *)
Record Collaborators (Format Store : Type) := {
  getFormat : Store -> Format;
  getContents : Store -> jsstring;
  setContents : jsstring -> Store -> result Store;
  contentToJson : jsstring -> Format -> result json;
  jsonToContent : jsstring -> Format -> result jsstring;
}.
Arguments getFormat {Format Store} _ _.
Arguments getContents {Format Store} _ _.
Arguments setContents {Format Store} _ _ _.
Arguments contentToJson {Format Store} _ _ _.
Arguments jsonToContent {Format Store} _ _ _.

(** What the component acts on: the file store, the calls of [onClose] and
    the warnings on the console. *)
Record World (Store : Type) := {
  store : Store;
  closeCalls : nat;
  warnings : list exn;
}.
Arguments store {Store} _.
Arguments closeCalls {Store} _.
Arguments warnings {Store} _.

Section Save.
Context {Format Store : Type} (env : Collaborators Format Store).

Definition onClose (w : World Store) : World Store :=
  {| store := store w; closeCalls := S (closeCalls w); warnings := warnings w |}.

Definition console_warn (err : exn) (w : World Store) : World Store :=
  {| store := store w; closeCalls := closeCalls w; warnings := err :: warnings w |}.

Definition withStore (st : Store) (w : World Store) : World Store :=
  {| store := st; closeCalls := closeCalls w; warnings := warnings w |}.

(** [nodeData && nodeData.text.length === 1 && !nodeData.text[0].key] *)
Definition isScalarNode (nodeData : option NodeData) : bool :=
  match nodeData with
  | Some node =>
      match text node with
      | [row] => negb (hasKey row)
      | _ => false
      end
  | None => false
  end.

(** The [forEach] of the composite branch: every editable row that has an
    entry in the buffer is assigned at the path of the node. *)
Fixpoint applyEdits (idx : nat) (rows : list NodeRow) (path : option (list segment))
    (edited : gmap nat jsstring) (updated : json) : result json :=
  match rows with
  | [] => Ok updated
  | row :: rest =>
      updated' ←
        (if isEditable row then
           match edited !! idx with
           | Some e =>
               parsed ← inferValue e;
               setAtPath updated path (Some (keyOf row)) parsed
           | None => Ok updated
           end
         else Ok updated);
      applyEdits (S idx) rest path edited updated'
  end.

(** The document that [handleSave] serializes, from the parsed one. *)
Definition newDocument (jsonObj : json) (nodeData : option NodeData)
    (edited : gmap nat jsstring) : result json :=
  if isScalarNode nodeData then
    newVal ← inferValue (default [] (edited !! 0%nat));
    setAtPath jsonObj (nodeData ≫= path) None newVal
  else
    let updated := VObject (spread jsonObj) in
    match nodeData with
    | Some node => applyEdits 0 (text node) (path node) edited updated
    | None => Ok updated
    end.

(** Serialize, persist and ask to close: the end of both branches. *)
Definition persist (newObj : json) (w : World Store) : result (World Store) :=
  content ← jsonToContent env (JSON_stringify newObj) (getFormat env (store w));
  st ← setContents env content (store w);
  Ok (onClose (withStore st w)).

(** The body of the [try] block. *)
Definition saveAttempt (nodeData : option NodeData) (edited : gmap nat jsstring)
    (w : World Store) : result (World Store) :=
  let format := getFormat env (store w) in
  let contents := getContents env (store w) in
  jsonObj ← contentToJson env contents format;
  newObj ← newDocument jsonObj nodeData edited;
  persist newObj w.

Definition handleSave (nodeData : option NodeData) (edited : gmap nat jsstring)
    (w : World Store) : result (World Store) :=
  try_catch (saveAttempt nodeData edited w) (fun err => Ok (console_warn err w)).

(** The Save button: [await handleSave(); setEditMode(false)]. *)
Definition onSave (nodeData : option NodeData) (s : State) (w : World Store)
  : result (State * World Store) :=
  w' ← handleSave nodeData (editedValues s) w;
  Ok (setEditMode false s, w').

(** The ways the body of the [try] block fails: the parse rejects, building
    the new document throws, the serialization rejects, or the store rejects
    the new contents. *)
Inductive saveFails (nodeData : option NodeData) (edited : gmap nat jsstring)
    (w : World Store) (err : exn) : Prop :=
| ParseFails :
    contentToJson env (getContents env (store w)) (getFormat env (store w)) = Throw err ->
    saveFails nodeData edited w err
| EditFails jsonObj :
    contentToJson env (getContents env (store w)) (getFormat env (store w)) = Ok jsonObj ->
    newDocument jsonObj nodeData edited = Throw err ->
    saveFails nodeData edited w err
| SerializeFails jsonObj newObj :
    contentToJson env (getContents env (store w)) (getFormat env (store w)) = Ok jsonObj ->
    newDocument jsonObj nodeData edited = Ok newObj ->
    jsonToContent env (JSON_stringify newObj) (getFormat env (store w)) = Throw err ->
    saveFails nodeData edited w err
| PersistFails jsonObj newObj content :
    contentToJson env (getContents env (store w)) (getFormat env (store w)) = Ok jsonObj ->
    newDocument jsonObj nodeData edited = Ok newObj ->
    jsonToContent env (JSON_stringify newObj) (getFormat env (store w)) = Ok content ->
    setContents env content (store w) = Throw err ->
    saveFails nodeData edited w err.

End Save.

(** *** The rows of the edit view *)

Record Field := {
  fieldIndex : nat;
  fieldLabel : jsstring;
  fieldValue : jsstring;
}.

(** The [map] of the edit view: [None] where the source returns [null], and
    for the other rows the label and the text of the input. *)
Definition renderRows (nodeData : option NodeData) (edited : gmap nat jsstring)
  : list (option Field) :=
  match nodeData with
  | None => []
  | Some node =>
      imap (fun idx row =>
              if bool_decide (type row = js "array") || bool_decide (type row = js "object")
              then None
              else if negb (hasKey row) || bool_decide (keyOf row = js "details")
              then None
              else Some {| fieldIndex := idx;
                           fieldLabel := keyOf row;
                           fieldValue := default (stringOrEmpty (value row)) (edited !! idx) |})
           (text node)
  end.

(** *** Reference points for the statements *)

(** The container that [path] leads to when every segment names a property
    that is there. *)
Fixpoint resolve (target : json) (path : list segment) : option json :=
  match path with
  | [] => Some target
  | p :: rest =>
      match js_get target (propertyKey p) with
      | Ok (Some child) => resolve child rest
      | _ => None
      end
  end.

(** The position a numeric segment addresses in an array. *)
Definition indexOf (n : number) : nat :=
  N.to_nat (default 0 (array_index (Number_toString n))).

(** What the specification says of a path none of whose containers exists:
    the container made for a numeric segment is an array that holds the next
    container at that index, the container made for a string segment is an
    object that holds it under that key, and the innermost container is an
    object with the assigned key. *)
Fixpoint nest (path : list segment) (k : jsstring) (v : json) : json :=
  match path with
  | [] => VObject [(k, v)]
  | SKey s :: rest => VObject [(s, nest rest k v)]
  | SIndex n :: rest => VArray (replicate (indexOf n) None ++ [Some (nest rest k v)])
  end.

(** A segment whose lookup stays inside the model in a new container: a
    string that is not a property of [Object.prototype], or a number that is
    an array index. *)
Definition plainSegment (p : segment) : bool :=
  match p with
  | SKey s => negb (inherited object_prototype_names s)
  | SIndex n => bool_decide (is_Some (array_index (Number_toString n)))
  end.

(** What the specification says [formatPath] prints for one segment: [N]
    in brackets for a number, the key in double quotes and brackets for a
    string. *)
Definition bracketed (seg : segment) : jsstring :=
  match seg with
  | SIndex n => js "[" ++ Number_toString n ++ js "]"
  | SKey k => [chr "["; 34] ++ k ++ [34; chr "]"]
  end.

(** Collaborators for a document kept as JSON text: the store is the text,
    the adapter parses it strictly and hands the serialized JSON back
    unchanged, and persisting replaces the text. *)
Definition jsonEnv : Collaborators unit jsstring := {|
  getFormat := fun _ => tt;
  getContents := fun st => st;
  setContents := fun contents _ => Ok contents;
  contentToJson := fun contents _ => JSON_parse contents;
  jsonToContent := fun text _ => Ok text;
|}.

Definition worldOf (contents : jsstring) : World jsstring :=
  {| store := contents; closeCalls := 0; warnings := [] |}.

Definition editing (edited : gmap nat jsstring) : State :=
  {| editedValues := edited; editMode := true |}.

(** The nodes and documents of the examples in the specification. *)
Definition countNode : NodeData := {|
  text := [{| key := None; value := PNumber (number_of_Z 5); type := js "number" |}];
  path := Some [SKey (js "count")];
|}.

Definition countDocument : json :=
  VObject [(js "count", VNumber (number_of_Z 5)); (js "other", VNumber (number_of_Z 1))].

Definition userNode : NodeData := {|
  text := [{| key := Some (js "name"); value := PString (js "Alice"); type := js "string" |}];
  path := Some [SKey (js "user")];
|}.

Definition userDocument : json :=
  VObject [(js "user", VObject [(js "name", VString (js "Bob"));
                                (js "age", VNumber (number_of_Z 30))])].

(** A node whose only row holds a string of digits, at the root of its
    document. *)
Definition idNode : NodeData := {|
  text := [{| key := Some (js "id"); value := PString (js "123"); type := js "string" |}];
  path := Some [];
|}.

Definition idDocument : json := VObject [(js "id", VString (js "123"))].

(** *** Reference points for the further properties *)

(** An integer in normal form that [Number::toString] prints in positional
    notation: zero, or a mantissa that does not end in 0 with a non-negative
    exponent and at most 21 digits in all. *)
Definition isPlainInteger (x : number) : bool :=
  if (mantissa x =? 0)%Z then (exponent x =? 0)%Z
  else
    negb (mantissa x mod 10 =? 0)%Z && (0 <=? exponent x)%Z
    && (Z.of_nat (length (digits_of_N (Z.abs_N (mantissa x)))) + exponent x <=? 21)%Z.

(** A text that [inferValue] keeps as a string: not empty, not JSON and not
    numeric. *)
Definition isOpaqueText (s : jsstring) : bool :=
  negb (bool_decide (s = []))
  && negb (bool_decide (is_Some (parse_text s)))
  && negb (bool_decide (is_Some (matchNumeric s))).

(** The row values that survive seeding and inference: null, undefined
    (which is saved as null), the booleans, the plain integers and the
    opaque texts. *)
Definition isStable (v : primitive) : bool :=
  match v with
  | PUndefined | PNull | PBool _ => true
  | PNumber x => isPlainInteger x
  | PString s => isOpaqueText s
  end.

(** The document value of a row value; [undefined] has none and is saved as
    null. *)
Definition jsonOrNull (v : primitive) : json := default VNull (json_of_primitive v).

Definition isObject (v : json) : bool :=
  match v with
  | VObject _ => true
  | _ => false
  end.

(** The properties of the container at the path of a node after the edits
    of the buffer: every editable row that has an entry defines its key with
    the value inferred from the entry, in the order of the rows. *)
Fixpoint editContainer (idx : nat) (rows : list NodeRow) (edited : gmap nat jsstring)
    (props : list (jsstring * json)) : list (jsstring * json) :=
  match rows with
  | [] => props
  | row :: rest =>
      editContainer (S idx) rest edited
        (if isEditable row then
           match edited !! idx with
           | Some e =>
               match inferValue e with
               | Ok v => obj_define props (keyOf row) v
               | _ => props
               end
           | None => props
           end
         else props)
  end.

(** A text without a double quote, a backslash or a control character:
    between quotes it is a JSON string with no escape. *)
Definition isPlainText (s : jsstring) : bool :=
  forallb (fun c => (32 <=? c) && negb (c =? 34) && negb (c =? chr "\")) s.

(** The field the edit view shows for an editable row. *)
Definition fieldOf (idx : nat) (row : NodeRow) (edited : gmap nat jsstring) : Field :=
  {| fieldIndex := idx;
     fieldLabel := keyOf row;
     fieldValue := default (stringOrEmpty (value row)) (edited !! idx) |}.

(** ** Properties *)

(** *** inferValue and jsonPathToString *)

(** C8. [inferValue] on the examples of the specification: the empty string
    gives null, "42" the number 42, "true" the boolean true, the text of an
    object that object, and "hello", which is not JSON, not numeric and not a
    boolean literal, the string itself. *)
Theorem inferValue_examples :
  inferValue (js "") = Ok VNull
  /\ inferValue (js "42") = Ok (VNumber (number_of_Z 42))
  /\ inferValue (js "true") = Ok (VBool true)
  /\ inferValue (jq "{'a':1}") = Ok (VObject [(js "a", VNumber (number_of_Z 1))])
  /\ inferValue (js "hello") = Ok (VString (js "hello")).
Proof. repeat split; vm_compute; reflexivity. Qed.

(** C9. [inferValue] returns a value for every string: the [SyntaxError] of
    [JSON.parse] is caught and nothing in the handler throws.  It is a
    function of its argument, so two runs agree. *)
Theorem inferValue_total (r : jsstring) :
  (exists v, inferValue r = Ok v)
  /\ (forall v1 v2, inferValue r = v1 -> inferValue r = v2 -> v1 = v2).
Proof.
  split; [|congruence].
  unfold inferValue.
  destruct (decide (r = [])); [eauto|].
  unfold JSON_parse. destruct (parse_text r) as [v|]; simpl; [eauto|].
  destruct (matchNumeric r); [eauto|].
  repeat case_decide; eauto.
Qed.

(** Joining the segment texts with "][" between the outer brackets is the
    same as bracketing every segment. *)
Lemma bracketed_join (p : segment) (rest : list segment) :
  js "[" ++ join (js "][") (map segmentText (p :: rest)) ++ js "]"
  = concat (map bracketed (p :: rest)).
Proof.
  revert p. induction rest as [|q rest IH]; intros p.
  - destruct p; simpl; rewrite ?app_nil_r; try reflexivity.
    rewrite <- !app_assoc. reflexivity.
  - specialize (IH q). cbn [map concat] in *. rewrite <- IH.
    change (join (js "][") (segmentText p :: segmentText q :: map segmentText rest))
      with (segmentText p ++ js "][" ++ join (js "][") (segmentText q :: map segmentText rest)).
    destruct p; cbn [bracketed segmentText]; rewrite <- ?app_assoc; reflexivity.
Qed.

(** C10. [jsonPathToString] prints "$" for an absent or empty path, and
    for every path "$" followed by its segments in order, a number in
    brackets and a string in double quotes and brackets, without escaping;
    the path a, 1, b prints as $["a"][1]["b"]. *)
Theorem jsonPathToString_format :
  jsonPathToString None = js "$"
  /\ jsonPathToString (Some []) = js "$"
  /\ (forall path, jsonPathToString (Some path) = js "$" ++ concat (map bracketed path))
  /\ jsonPathToString (Some [SKey (js "a"); SIndex (number_of_Z 1); SKey (js "b")])
     = jq "$['a'][1]['b']".
Proof.
  repeat split.
  intros [|p rest]; [reflexivity|].
  unfold jsonPathToString.
  change (js "$[") with (js "$" ++ js "["). rewrite <- app_assoc.
  f_equal. apply bracketed_join.
Qed.

(** *** The editable rows *)

(** A row is editable when its type is neither "array" nor "object" and it
    has a non-empty key other than "details". *)
Lemma isEditable_spec (row : NodeRow) :
  isEditable row = true <->
  type row <> js "array" /\ type row <> js "object"
  /\ exists k, key row = Some k /\ k <> [] /\ k <> js "details".
Proof.
  unfold isEditable, hasKey, keyOf.
  rewrite !andb_true_iff, !negb_true_iff, !bool_decide_eq_false.
  destruct (key row) as [[|c k]|]; simpl; split.
  all: try (intros [[[? ?] ?] ?]; discriminate).
  all: try (intros (_ & _ & k' & ? & ? & ?); congruence).
  - intros [[[? ?] _] ?]. repeat split; try assumption. eauto.
  - intros (? & ? & k' & Hk & _ & ?). inversion Hk; subst. repeat split; assumption.
Qed.

(** The entry of the seeded buffer at an index: that of the row at the index
    if it is editable, and otherwise what the buffer held before. *)
Lemma seedRows_lookup (rows : list NodeRow) (idx : nat) (map : gmap nat jsstring) (i : nat) :
  seedRows idx rows map !! i =
  match (if decide (idx <= i)%nat then rows !! (i - idx)%nat else None) with
  | Some row => if isEditable row then Some (stringOrEmpty (value row)) else map !! i
  | None => map !! i
  end.
Proof.
  revert idx map. induction rows as [|row rest IH]; intros idx map; simpl.
  - destruct (decide (idx <= i)%nat); reflexivity.
  - rewrite IH.
    destruct (decide (S idx <= i)%nat) as [Hlt|Hge].
    + destruct (decide (idx <= i)%nat); [|lia].
      replace (i - idx)%nat with (S (i - S idx)) by lia. simpl.
      destruct (rest !! (i - S idx)%nat) as [r|];
        [destruct (isEditable r); [reflexivity|]|];
        destruct (isEditable row); try reflexivity; apply lookup_insert_ne; lia.
    + destruct (decide (idx <= i)%nat) as [Hle|Hgt].
      * assert (i = idx) by lia. subst i. rewrite Nat.sub_diag. simpl.
        destruct (isEditable row); [apply lookup_insert_eq|reflexivity].
      * destruct (isEditable row); [|reflexivity]. apply lookup_insert_ne. lia.
Qed.

Lemma seed_lookup (rows : list NodeRow) (i : nat) :
  seedRows 0 rows ∅ !! i =
  match rows !! i with
  | Some row => if isEditable row then Some (stringOrEmpty (value row)) else None
  | None => None
  end.
Proof.
  rewrite seedRows_lookup. destruct (decide (0 <= i)%nat); [|lia].
  rewrite Nat.sub_0_r. destruct (rows !! i) as [row|]; [|apply lookup_empty].
  destruct (isEditable row); [reflexivity|apply lookup_empty].
Qed.

(** *** Own properties *)

Section PropertyFacts.
Context {V : Type}.
Implicit Types (props : list (jsstring * V)) (k : jsstring) (v : V).

Lemma obj_replace_elem props k v kv :
  kv ∈ obj_replace props k v -> kv = (k, v) \/ kv ∈ props.
Proof.
  induction props as [|[k' v'] rest IH]; simpl; [intros H; inversion H|].
  destruct (decide (k' = k)) as [->|].
  - rewrite !elem_of_cons. intuition.
  - rewrite !elem_of_cons. intuition.
Qed.

Lemma obj_insert_index_elem props n k v kv :
  kv ∈ obj_insert_index props n k v -> kv = (k, v) \/ kv ∈ props.
Proof.
  induction props as [|[k' v'] rest IH]; simpl.
  - rewrite list_elem_of_singleton. auto.
  - destruct (array_index k') as [m|]; [destruct (n <? m)|];
      rewrite !elem_of_cons; intuition.
Qed.

Lemma obj_define_elem props k v kv :
  kv ∈ obj_define props k v -> kv = (k, v) \/ kv ∈ props.
Proof.
  unfold obj_define. destruct (obj_lookup props k).
  - apply obj_replace_elem.
  - destruct (array_index k).
    + apply obj_insert_index_elem.
    + rewrite elem_of_app, list_elem_of_singleton. tauto.
Qed.

Lemma obj_replace_same props k v :
  obj_lookup props k = Some v -> obj_replace props k v = props.
Proof.
  induction props as [|[k' v'] rest IH]; simpl; [reflexivity|].
  destruct (decide (k' = k)); [congruence|]. intros H. rewrite IH; auto.
Qed.

End PropertyFacts.

(** Every property of the display object was assigned from an editable
    row. *)
Lemma displayObject_from_rows (rows : list NodeRow) (k : jsstring) (v : primitive) :
  (k, v) ∈ displayObject rows ->
  exists row, row ∈ rows /\ isEditable row = true /\ key row = Some k /\ value row = v.
Proof.
  unfold displayObject.
  assert (forall rs obj, (k, v) ∈ fold_left
            (fun obj row => if isEditable row then assignKey obj (keyOf row) (value row) else obj)
            rs obj ->
          (k, v) ∈ obj \/
          exists row, row ∈ rs /\ isEditable row = true /\ key row = Some k /\ value row = v) as H.
  { induction rs as [|row rest IH]; intros obj; simpl; [auto|].
    intros Hin. apply IH in Hin as [Hin|(r & ? & ?)].
    - destruct (isEditable row) eqn:He; [|auto].
      unfold assignKey in Hin. destruct (decide _); [auto|].
      apply obj_define_elem in Hin as [Heq|?]; [|auto].
      right. exists row. inversion Heq; subst.
      split; [apply elem_of_cons; left; reflexivity|]. split; [assumption|]. split; [|reflexivity].
      apply isEditable_spec in He as (_ & _ & k' & Hk & _). unfold keyOf. rewrite Hk. reflexivity.
    - right. exists r. split; [apply elem_of_cons; right; assumption|assumption]. }
  intros Hin. apply H in Hin as [Hin|?]; [inversion Hin|assumption].
Qed.

(** C6. A row whose type is "array" or "object", or that has no key, or
    whose key is "details", gets no entry in the buffer the seeding builds;
    every entry of that buffer and every property of the display object
    comes from a row that passes the predicate, with its value; and no row
    that passes the predicate is one of the excluded ones. *)
Theorem excluded_rows_never_appear (node : NodeData) (s : State) :
  (forall idx row, text node !! idx = Some row ->
     type row = js "array" \/ type row = js "object"
     \/ key row = None \/ key row = Some (js "details") ->
     editedValues (onOpen true (Some node) s) !! idx = None)
  /\ (forall idx e, editedValues (onOpen true (Some node) s) !! idx = Some e ->
        exists row, text node !! idx = Some row /\ isEditable row = true
                    /\ e = stringOrEmpty (value row))
  /\ (forall k v, (k, v) ∈ displayObject (text node) ->
        exists row, row ∈ text node /\ isEditable row = true
                    /\ key row = Some k /\ value row = v)
  /\ normalizeNodeData (text node)
     = match text node with
       | [] => js "{}"
       | [row] => if hasKey row then stringifyDisplay (displayObject [row])
                  else ToString (value row)
       | rows => stringifyDisplay (displayObject rows)
       end
  /\ (forall row, isEditable row = true ->
        type row <> js "array" /\ type row <> js "object"
        /\ key row <> None /\ key row <> Some (js "details")).
Proof.
  change (editedValues (onOpen true (Some node) s)) with (seedRows 0 (text node) ∅).
  split; [|split; [|split; [|split]]].
  - intros idx row Hrow Hex. rewrite seed_lookup, Hrow.
    destruct (isEditable row) eqn:He; [|reflexivity].
    apply isEditable_spec in He as (? & ? & k & Hk & ? & ?).
    destruct Hex as [?|[?|[?|?]]]; congruence.
  - intros idx e. rewrite seed_lookup.
    destruct (text node !! idx) as [row|]; [|discriminate].
    destruct (isEditable row) eqn:He; [|discriminate].
    intros [= <-]. eauto.
  - apply displayObject_from_rows.
  - destruct (text node) as [|row [|row' rest]]; simpl; try reflexivity.
    destruct (hasKey row); reflexivity.
  - intros row He. apply isEditable_spec in He as (? & ? & k & Hk & ? & ?).
    repeat split; congruence.
Qed.

(** *** Walking an existing path *)

(** Assigning to a property the value it holds leaves the target as it is. *)
Lemma js_set_get_same (target : json) (k : jsstring) (child : json) :
  js_get target k = Ok (Some child) -> js_set target k child = Ok target.
Proof.
  destruct target as [| | | |elems|props]; simpl; try discriminate.
  - destruct (inherited _ k); discriminate.
  - destruct (inherited _ k); discriminate.
  - destruct (array_index k) as [n|]; [|discriminate].
    intros [= H]. unfold array_store.
    destruct (elems !! N.to_nat n) as [e|] eqn:He; [|discriminate].
    simpl in H. subst e.
    rewrite bool_decide_eq_true_2 by (eapply lookup_lt_Some; eassumption).
    rewrite list_insert_id by assumption. reflexivity.
  - destruct (obj_lookup props k) as [v|] eqn:Hl.
    + intros [= ->]. rewrite obj_replace_same by assumption. reflexivity.
    + destruct (inherited _ k); discriminate.
Qed.

(** A walk along a path that exists, ending in an operation that leaves the
    container unchanged, leaves the whole tree unchanged. *)
Lemma walk_resolved (path : list segment) (final : json -> result json)
    (target container : json) :
  resolve target path = Some container ->
  final container = Ok container ->
  walk target path final = Ok target.
Proof.
  revert target. induction path as [|p rest IH]; intros target; simpl.
  - intros [= ->]. auto.
  - destruct (js_get target (propertyKey p)) as [[child|]| |] eqn:Hget; try discriminate.
    intros Hres Hfin. simpl. rewrite (IH child Hres Hfin). simpl.
    apply js_set_get_same. assumption.
Qed.

(** Edits that infer, for every editable row, the value the document holds
    under the key of the row leave the document unchanged. *)
Lemma applyEdits_unchanged (path : option (list segment)) (edited : gmap nat jsstring)
    (doc : json) (target : list (jsstring * json)) (rows : list NodeRow) (idx : nat) :
  resolve doc (default [] path) = Some (VObject target) ->
  (forall i row e, rows !! i = Some row -> isEditable row = true ->
     edited !! (idx + i)%nat = Some e ->
     exists v, inferValue e = Ok v /\ obj_lookup target (keyOf row) = Some v) ->
  applyEdits idx rows path edited doc = Ok doc.
Proof.
  intros Hres. revert idx. induction rows as [|row rest IH]; intros idx Hrows.
  - reflexivity.
  - assert (applyEdits (S idx) rest path edited doc = Ok doc) as Hrest.
    { apply IH. intros i r e Hr He Hed.
      apply (Hrows (S i) r e); auto. rewrite <- Hed. f_equal. lia. }
    cbn [applyEdits].
    destruct (isEditable row) eqn:He; [|exact Hrest].
    destruct (edited !! idx) as [e|] eqn:Hed; [|exact Hrest].
    destruct (Hrows 0%nat row e) as (v & Hv & Hl); auto.
    { rewrite Nat.add_0_r. assumption. }
    rewrite Hv. cbn [mbind result_bind].
    unfold setAtPath.
    rewrite (walk_resolved _ _ doc (VObject target)); [exact Hrest|assumption|].
    simpl. rewrite Hl. rewrite obj_replace_same by assumption. reflexivity.
Qed.

(** *** Saving *)

Section SaveFacts.
Context {Format Store : Type} (env : Collaborators Format Store).

(** C5, as amended. Cancel resets the buffer, whatever it held, to the
    text of the value of every editable row and leaves edit mode.  A save
    after it, with no further edit, serializes and persists the parsed
    document unchanged when the node is not a single unkeyed row, the
    document is an object in which the path of the node leads to an object,
    and for every editable row the text of its value infers to the value
    that object holds under the key of the row. *)
Theorem cancel_then_save_round_trip (node : NodeData) (s : State) (w : World Store)
    (props target : list (jsstring * json)) :
  isScalarNode (Some node) = false ->
  contentToJson env (getContents env (store w)) (getFormat env (store w))
    = Ok (VObject props) ->
  resolve (VObject props) (default [] (path node)) = Some (VObject target) ->
  (forall row, row ∈ text node -> isEditable row = true ->
     exists v, inferValue (stringOrEmpty (value row)) = Ok v
               /\ obj_lookup target (keyOf row) = Some v) ->
  (forall idx, editedValues (onCancel (Some node) s) !! idx =
     match text node !! idx with
     | Some row => if isEditable row then Some (stringOrEmpty (value row)) else None
     | None => None
     end)
  /\ editMode (onCancel (Some node) s) = false
  /\ handleSave env (Some node) (editedValues (onEdit (onCancel (Some node) s))) w
     = try_catch (persist env (VObject props) w) (fun err => Ok (console_warn err w)).
Proof.
  intros Hscalar Hparse Hres Hrows.
  split; [intros idx; apply seed_lookup|]. split; [reflexivity|].
  unfold handleSave, saveAttempt. rewrite Hparse. cbn [mbind result_bind].
  unfold newDocument. rewrite Hscalar. cbn [spread].
  rewrite (applyEdits_unchanged _ _ _ target); [reflexivity|assumption|].
  intros i row e Hrow He. simpl. rewrite seed_lookup, Hrow, He. intros [= <-].
  apply Hrows; [|assumption]. eapply list_elem_of_lookup_2. eassumption.
Qed.

(** The body of the [try] block throws exactly when one of its stages
    does. *)
Lemma saveAttempt_throws (nodeData : option NodeData) (edited : gmap nat jsstring)
    (w : World Store) (err : exn) :
  saveAttempt env nodeData edited w = Throw err <-> saveFails env nodeData edited w err.
Proof.
  unfold saveAttempt, persist. split.
  - destruct (contentToJson env _ _) as [jsonObj| |] eqn:Hparse;
      cbn [mbind result_bind]; [|intros [= ->]; apply ParseFails; assumption|discriminate].
    destruct (newDocument jsonObj nodeData edited) as [newObj| |] eqn:Hnew;
      cbn [mbind result_bind]; [|intros [= ->]; eapply EditFails; eassumption|discriminate].
    destruct (jsonToContent env _ _) as [content| |] eqn:Hser;
      cbn [mbind result_bind];
      [|intros [= ->]; eapply SerializeFails; eassumption|discriminate].
    destruct (setContents env content (store w)) as [st| |] eqn:Hset;
      cbn [mbind result_bind]; [discriminate| |discriminate].
    intros [= ->]. eapply PersistFails; eassumption.
  - intros [H|jsonObj H1 H2|jsonObj newObj H1 H2 H3|jsonObj newObj content H1 H2 H3 H4].
    + rewrite H. reflexivity.
    + rewrite H1. cbn [mbind result_bind]. rewrite H2. reflexivity.
    + rewrite H1. cbn [mbind result_bind]. rewrite H2. cbn [mbind result_bind].
      rewrite H3. reflexivity.
    + rewrite H1. cbn [mbind result_bind]. rewrite H2. cbn [mbind result_bind].
      rewrite H3. cbn [mbind result_bind]. rewrite H4. reflexivity.
Qed.

(** C2, as amended. When parsing, building the document, serializing or
    persisting throws, [handleSave] catches the error and logs it: nothing is
    thrown further, [onClose] is not called and the store is as before.  The
    Save button then leaves edit mode all the same, with the buffer as it
    was. *)
Theorem failed_save_is_caught (nodeData : option NodeData) (s : State) (w : World Store)
    (err : exn) :
  saveFails env nodeData (editedValues s) w err ->
  handleSave env nodeData (editedValues s) w = Ok (console_warn err w)
  /\ onSave env nodeData s w = Ok (setEditMode false s, console_warn err w)
  /\ store (console_warn err w) = store w
  /\ closeCalls (console_warn err w) = closeCalls w
  /\ warnings (console_warn err w) = err :: warnings w
  /\ editedValues (setEditMode false s) = editedValues s
  /\ editMode (setEditMode false s) = false.
Proof.
  intros H. apply saveAttempt_throws in H.
  unfold onSave, handleSave. rewrite H. simpl. repeat split.
Qed.

(** C4. For a node with one row that has no key, the seeding makes no
    entry and the edit view no input; the buffered text defaults to the empty
    string, which infers to null, and a save whose walk along the path
    completes serializes null, the text "null", as the new document. *)
Theorem scalar_node_saves_null (node : NodeData) (row : NodeRow)
    (w : World Store) (jsonObj walked : json) :
  text node = [row] ->
  hasKey row = false ->
  contentToJson env (getContents env (store w)) (getFormat env (store w)) = Ok jsonObj ->
  walk jsonObj (default [] (path node)) Ok = Ok walked ->
  seedEditedValues (Some node) = ∅
  /\ (forall edited, renderRows (Some node) edited = [None])
  /\ inferValue (default [] (seedEditedValues (Some node) !! 0%nat)) = Ok VNull
  /\ newDocument jsonObj (Some node) (seedEditedValues (Some node)) = Ok VNull
  /\ JSON_stringify VNull = js "null"
  /\ handleSave env (Some node) (seedEditedValues (Some node)) w
     = try_catch (persist env VNull w) (fun err => Ok (console_warn err w)).
Proof.
  intros Htext Hkey Hparse Hwalk.
  assert (isEditable row = false) as He.
  { unfold isEditable. rewrite Hkey. rewrite andb_false_r. reflexivity. }
  assert (seedEditedValues (Some node) = ∅) as Hseed.
  { unfold seedEditedValues. rewrite Htext. simpl. rewrite He. reflexivity. }
  assert (newDocument jsonObj (Some node) (seedEditedValues (Some node)) = Ok VNull) as Hnew.
  { unfold newDocument, isScalarNode. rewrite Htext, Hkey, Hseed. simpl.
    unfold setAtPath. rewrite Hwalk. reflexivity. }
  split; [assumption|]. split.
  { intros edited. unfold renderRows. rewrite Htext. simpl. rewrite Hkey. simpl.
    destruct (bool_decide _ || bool_decide _); reflexivity. }
  split; [rewrite Hseed; reflexivity|]. split; [assumption|]. split; [reflexivity|].
  unfold handleSave, saveAttempt. rewrite Hparse. cbn [mbind result_bind].
  rewrite Hnew. reflexivity.
Qed.

End SaveFacts.

(** The scalar node of the specification over its document. *)
Lemma scalar_node_saves_null_witness :
  handleSave jsonEnv (Some countNode) (seedEditedValues (Some countNode))
    (worldOf (jq "{'count':5,'other':1}"))
  = Ok {| store := js "null"; closeCalls := 1; warnings := [] |}.
Proof.
  pose proof (scalar_node_saves_null jsonEnv countNode
    {| key := None; value := PNumber (number_of_Z 5); type := js "number" |}
    (worldOf (jq "{'count':5,'other':1}")) countDocument countDocument
    eq_refl eq_refl eq_refl eq_refl) as (_ & _ & _ & _ & _ & H).
  rewrite H. reflexivity.
Defined.

(** *** Creating containers *)

Section DefineFacts.
Context {V : Type}.
Implicit Types (props : list (jsstring * V)) (k : jsstring) (v : V).

Lemma obj_insert_index_lookup props n k a :
  obj_lookup props k = None ->
  obj_lookup (obj_insert_index props n k a) k = Some a.
Proof.
  induction props as [|[k' v'] rest IH]; simpl.
  - intros _. rewrite decide_True; reflexivity.
  - destruct (decide (k' = k)) as [|Hne]; [discriminate|]. intros Hl.
    destruct (array_index k') as [m|]; [destruct (n <? m)|]; simpl.
    + rewrite decide_True; reflexivity.
    + rewrite decide_False by assumption. auto.
    + rewrite decide_True; reflexivity.
Qed.

Lemma obj_insert_index_replace props n k a b :
  obj_lookup props k = None ->
  obj_replace (obj_insert_index props n k a) k b = obj_insert_index props n k b.
Proof.
  induction props as [|[k' v'] rest IH]; simpl.
  - intros _. rewrite decide_True; reflexivity.
  - destruct (decide (k' = k)) as [|Hne]; [discriminate|]. intros Hl.
    destruct (array_index k') as [m|]; [destruct (n <? m)|]; simpl.
    + rewrite decide_True; reflexivity.
    + rewrite decide_False by assumption. rewrite IH by assumption. reflexivity.
    + rewrite decide_True; reflexivity.
Qed.

Lemma obj_append_lookup props k a :
  obj_lookup props k = None -> obj_lookup (props ++ [(k, a)]) k = Some a.
Proof.
  induction props as [|[k' v'] rest IH]; simpl.
  - intros _. rewrite decide_True; reflexivity.
  - destruct (decide (k' = k)); [discriminate|]. assumption.
Qed.

Lemma obj_append_replace props k a b :
  obj_lookup props k = None ->
  obj_replace (props ++ [(k, a)]) k b = props ++ [(k, b)].
Proof.
  induction props as [|[k' v'] rest IH]; simpl.
  - intros _. rewrite decide_True; reflexivity.
  - destruct (decide (k' = k)); [discriminate|]. intros Hl. rewrite IH by assumption.
    reflexivity.
Qed.

Lemma obj_define_lookup props k a :
  obj_lookup props k = None -> obj_lookup (obj_define props k a) k = Some a.
Proof.
  intros Hl. unfold obj_define. rewrite Hl. destruct (array_index k).
  - apply obj_insert_index_lookup. assumption.
  - apply obj_append_lookup. assumption.
Qed.

Lemma obj_define_replace props k a b :
  obj_lookup props k = None ->
  obj_replace (obj_define props k a) k b = obj_define props k b.
Proof.
  intros Hl. unfold obj_define. rewrite Hl. destruct (array_index k).
  - apply obj_insert_index_replace. assumption.
  - apply obj_append_replace. assumption.
Qed.

End DefineFacts.

Lemma not_inherited_proto (k : jsstring) :
  inherited object_prototype_names k = false -> k <> js "__proto__".
Proof.
  unfold inherited. rewrite bool_decide_eq_false. intros Hn ->. apply Hn.
  unfold object_prototype_names. rewrite !elem_of_cons. tauto.
Qed.

(** Creating a property of an object and then replacing its value. *)
Lemma js_set_fresh_then (props : list (jsstring * json)) (k : jsstring) (a b : json) :
  obj_lookup props k = None ->
  k <> js "__proto__" ->
  (target' ← js_set (VObject props) k a; js_set target' k b)
  = Ok (VObject (obj_define props k b)).
Proof.
  intros Hl Hk. simpl. rewrite Hl. rewrite decide_False by assumption. simpl.
  rewrite obj_define_lookup by assumption. rewrite obj_define_replace by assumption.
  reflexivity.
Qed.

(** Storing past the end of an empty array and then replacing the element. *)
Lemma array_store_fresh_then (m : nat) (a b : json) :
  array_store (array_store [] m a) m b = replicate m None ++ [Some b].
Proof.
  unfold array_store at 2. rewrite bool_decide_eq_false_2 by (simpl; lia).
  simpl. rewrite Nat.sub_0_r. unfold array_store.
  rewrite bool_decide_eq_true_2 by (rewrite length_app, length_replicate; simpl; lia).
  rewrite insert_app_r_alt by (rewrite length_replicate; lia).
  rewrite length_replicate, Nat.sub_diag. reflexivity.
Qed.

(** The walk through containers that were just created builds the nesting
    the specification describes. *)
Lemma walk_fresh (rest : list segment) (k : jsstring) (v : json) :
  forallb plainSegment rest = true ->
  k <> js "__proto__" ->
  walk (freshContainer rest) rest (fun target => js_set target k v) = Ok (nest rest k v).
Proof.
  intros Hplain Hk. induction rest as [|q rest IH].
  - simpl. rewrite decide_False by assumption. unfold obj_define. simpl.
    destruct (array_index k); reflexivity.
  - simpl in Hplain. apply andb_true_iff in Hplain as [Hq Hrest].
    specialize (IH Hrest). destruct q as [s|n].
    + simpl in Hq. apply negb_true_iff in Hq.
      cbn [freshContainer walk propertyKey nest].
      cbn [js_get obj_lookup]. rewrite Hq. cbn [mbind result_bind].
      rewrite IH. cbn [mbind result_bind].
      rewrite (js_set_fresh_then [] s) by (auto using not_inherited_proto).
      unfold obj_define. simpl. destruct (array_index s); reflexivity.
    + simpl in Hq. apply bool_decide_eq_true in Hq as [i Hi].
      cbn [freshContainer walk propertyKey nest].
      cbn [js_get js_set]. rewrite Hi. rewrite lookup_nil. cbn [mjoin option_join mbind result_bind].
      rewrite IH. cbn [mbind result_bind js_set]. rewrite Hi.
      rewrite array_store_fresh_then. unfold indexOf. rewrite Hi. reflexivity.
Qed.

(** C7. The container made for a missing slot is an empty array when the
    next segment is a number and an empty object otherwise.  Where the walk
    meets a segment that its current target lacks, it assigns such a
    container there and in the end the target holds, at that segment, the
    nesting of such containers around the assigned key; when the target is
    the document, an object, [setAtPath] returns it with that property
    defined.  On the empty document with path a, b, key c and value 1 the
    result is {"a":{"b":{"c":1}}}. *)
Theorem setAtPath_creates_missing (target : json) (props : list (jsstring * json))
    (p : segment) (rest : list segment) (k : jsstring) (v : json) :
  js_get target (propertyKey p) = Ok None ->
  js_get (VObject props) (propertyKey p) = Ok None ->
  forallb plainSegment rest = true ->
  k <> js "__proto__" ->
  freshContainer rest
    = match rest with SIndex _ :: _ => VArray [] | _ => VObject [] end
  /\ walk target (p :: rest) (fun t => js_set t k v)
     = (target' ← js_set target (propertyKey p) (freshContainer rest);
        js_set target' (propertyKey p) (nest rest k v))
  /\ setAtPath (VObject props) (Some (p :: rest)) (Some k) v
     = Ok (VObject (obj_define props (propertyKey p) (nest rest k v)))
  /\ setAtPath (VObject []) (Some [SKey (js "a"); SKey (js "b")]) (Some (js "c"))
       (VNumber (number_of_Z 1))
     = Ok (VObject [(js "a", VObject [(js "b",
             VObject [(js "c", VNumber (number_of_Z 1))])])]).
Proof.
  intros Hcur Hget Hplain Hk.
  assert (forall t, js_get t (propertyKey p) = Ok None ->
            walk t (p :: rest) (fun t => js_set t k v)
            = (t' ← js_set t (propertyKey p) (freshContainer rest);
               js_set t' (propertyKey p) (nest rest k v))) as Hstep.
  { intros t Ht. cbn [walk]. rewrite Ht. cbn [mbind result_bind].
    rewrite walk_fresh by assumption.
    destruct (js_set t (propertyKey p) (freshContainer rest)); reflexivity. }
  split; [reflexivity|]. split; [apply Hstep; assumption|]. split; [|reflexivity].
  unfold setAtPath. change (default [] (Some (p :: rest))) with (p :: rest).
  rewrite Hstep by assumption.
  simpl in Hget. destruct (obj_lookup props (propertyKey p)) eqn:Hl; [discriminate|].
  destruct (inherited object_prototype_names (propertyKey p)) eqn:Hin; [discriminate|].
  apply js_set_fresh_then; [assumption|]. apply not_inherited_proto. assumption.
Qed.

(** Missing slots with a numeric segment: index 1 of an empty array, which
    leaves a hole at index 0, and the key "a" of the empty document, under
    which an array is made for the index that follows. *)
Lemma setAtPath_creates_missing_witness :
  walk (VArray []) [SIndex (number_of_Z 1); SKey (js "b")]
    (fun t => js_set t (js "c") (VNumber (number_of_Z 1)))
  = Ok (VArray [None; Some (VObject [(js "b",
          VObject [(js "c", VNumber (number_of_Z 1))])])])
  /\ setAtPath (VObject []) (Some [SKey (js "a"); SIndex (number_of_Z 1)]) (Some (js "c"))
       (VNumber (number_of_Z 1))
     = Ok (VObject [(js "a",
             VArray [None; Some (VObject [(js "c", VNumber (number_of_Z 1))])])]).
Proof.
  split.
  - exact (proj1 (proj2 (setAtPath_creates_missing (VArray []) []
             (SIndex (number_of_Z 1)) [SKey (js "b")] (js "c") (VNumber (number_of_Z 1))
             eq_refl eq_refl eq_refl (fun H => ltac:(discriminate H))))).
  - exact (proj1 (proj2 (proj2 (setAtPath_creates_missing (VObject []) []
             (SKey (js "a")) [SIndex (number_of_Z 1)] (js "c") (VNumber (number_of_Z 1))
             eq_refl eq_refl eq_refl (fun H => ltac:(discriminate H)))))).
Defined.

(** C1. The scalar save of the specification, as the code runs it: the
    edited text "9" infers to the number 9, [setAtPath] with a null key
    returns that number, and [handleSave] serializes and persists it as the
    whole document, the text "9", not the document with "count" replaced. *)
Theorem scalar_save_replaces_document :
  JSON_parse (jq "{'count':5,'other':1}") = Ok countDocument
  /\ inferValue (js "9") = Ok (VNumber (number_of_Z 9))
  /\ setAtPath countDocument (path countNode) None (VNumber (number_of_Z 9))
     = Ok (VNumber (number_of_Z 9))
  /\ newDocument countDocument (Some countNode) {[0%nat := js "9"]}
     = Ok (VNumber (number_of_Z 9))
  /\ handleSave jsonEnv (Some countNode) {[0%nat := js "9"]}
       (worldOf (jq "{'count':5,'other':1}"))
     = Ok {| store := js "9"; closeCalls := 1; warnings := [] |}
  /\ js "9" <> jq "{'count':9,'other':1}".
Proof. repeat split; try (vm_compute; reflexivity). discriminate. Qed.

(** C3. Saving the buffer entry "Carol" for the row "name" of the node at
    path user persists the document with "name" updated and its sibling "age"
    unchanged. *)
Theorem composite_save_keeps_siblings :
  JSON_parse (jq "{'user':{'name':'Bob','age':30}}") = Ok userDocument
  /\ newDocument userDocument (Some userNode) {[0%nat := js "Carol"]}
     = Ok (VObject [(js "user", VObject [(js "name", VString (js "Carol"));
                                         (js "age", VNumber (number_of_Z 30))])])
  /\ handleSave jsonEnv (Some userNode) {[0%nat := js "Carol"]}
       (worldOf (jq "{'user':{'name':'Bob','age':30}}"))
     = Ok {| store := jq "{'user':{'name':'Carol','age':30}}";
             closeCalls := 1; warnings := [] |}.
Proof. repeat split; vm_compute; reflexivity. Qed.

(** The contents "{" do not parse: the save fails, and the session that was
    in edit mode is in view mode after the Save button. *)
Lemma failed_save_leaves_edit_mode :
  let s := editing {[0%nat := js "Carol"]} in
  let w := worldOf (js "{") in
  contentToJson jsonEnv (getContents jsonEnv (store w)) (getFormat jsonEnv (store w))
  = Throw SyntaxError
  /\ saveAttempt jsonEnv (Some userNode) (editedValues s) w = Throw SyntaxError
  /\ editMode s = true
  /\ onSave jsonEnv (Some userNode) s w
     = Ok ({| editedValues := {[0%nat := js "Carol"]}; editMode := false |},
           {| store := js "{"; closeCalls := 0; warnings := [SyntaxError] |}).
Proof. repeat split. Qed.

(** The failed save of the malformed contents "{". *)
Lemma failed_save_is_caught_witness :
  onSave jsonEnv (Some userNode) (editing {[0%nat := js "Carol"]}) (worldOf (js "{"))
  = Ok (setEditMode false (editing {[0%nat := js "Carol"]}),
        console_warn SyntaxError (worldOf (js "{"))).
Proof.
  refine (proj1 (proj2 (failed_save_is_caught jsonEnv (Some userNode)
            (editing {[0%nat := js "Carol"]}) (worldOf (js "{")) SyntaxError _))).
  apply ParseFails. reflexivity.
Defined.

(** A row whose value is the string "123": after Cancel the buffer holds
    the text 123, which infers to a number, and the save persists the number
    where the document held the string. *)
Lemma cancel_then_save_retypes_string :
  let s := onEdit (onCancel (Some idNode) (editing {[0%nat := js "999"]})) in
  JSON_parse (jq "{'id':'123'}") = Ok idDocument
  /\ editedValues s = {[0%nat := js "123"]}
  /\ newDocument idDocument (Some idNode) (editedValues s)
     = Ok (VObject [(js "id", VNumber (number_of_Z 123))])
  /\ handleSave jsonEnv (Some idNode) (editedValues s) (worldOf (jq "{'id':'123'}"))
     = Ok {| store := jq "{'id':123}"; closeCalls := 1; warnings := [] |}
  /\ jq "{'id':123}" <> jq "{'id':'123'}".
Proof. repeat split; try (vm_compute; reflexivity). discriminate. Qed.

(** The user node over a document that holds its value. *)
Lemma cancel_then_save_round_trip_witness :
  handleSave jsonEnv (Some userNode)
    (editedValues (onEdit (onCancel (Some userNode) (editing {[0%nat := js "Carol"]}))))
    (worldOf (jq "{'user':{'name':'Alice','age':30}}"))
  = Ok {| store := jq "{'user':{'name':'Alice','age':30}}";
          closeCalls := 1; warnings := [] |}.
Proof.
  pose proof (cancel_then_save_round_trip jsonEnv userNode
    (editing {[0%nat := js "Carol"]})
    (worldOf (jq "{'user':{'name':'Alice','age':30}}"))
    [(js "user", VObject [(js "name", VString (js "Alice"));
                          (js "age", VNumber (number_of_Z 30))])]
    [(js "name", VString (js "Alice")); (js "age", VNumber (number_of_Z 30))]
    eq_refl eq_refl eq_refl) as H.
  destruct H as (_ & _ & H).
  - intros row Hrow _. apply list_elem_of_singleton in Hrow. subst row.
    exists (VString (js "Alice")). split; reflexivity.
  - rewrite H. reflexivity.
Defined.

(** ** Further properties *)

#[local] Arguments chr : simpl never.

(** *** Numeric text *)


Lemma span_app (p : N -> bool) (s a b : jsstring) :
  span p s = (a, b) -> s = a ++ b /\ forallb p a = true.
Proof.
  revert a b. induction s as [|c s IH]; simpl; intros a b.
  - intros [= <- <-]. auto.
  - destruct (p c) eqn:Hc.
    + destruct (span p s) as [a' b']. intros [= <- <-].
      destruct (IH a' b' eq_refl) as [-> ?]. simpl. rewrite Hc. auto.
    + intros [= <- <-]. auto.
Qed.

Lemma digits1_app (s a b : jsstring) :
  digits1 s = Some (a, b) -> s = a ++ b /\ a <> [] /\ forallb is_digit a = true.
Proof.
  unfold digits1. destruct (span is_digit s) as [a' b'] eqn:Hs.
  destruct a' as [|c a']; [discriminate|]. intros [= <- <-].
  apply span_app in Hs as [? ?]. repeat split; auto; try discriminate.
Qed.

Lemma is_digit_number_char (c : N) : is_digit c = true -> is_number_char c = true.
Proof. unfold is_number_char. intros ->. reflexivity. Qed.

Lemma lex_idle_digit (c : N) :
  is_digit c = true \/ c = chr "-" -> lex_idle c = Some (LNumber [c], []).
Proof.
  unfold lex_idle, is_ws, is_digit, chr. simpl.
  intros [H| ->]; [|reflexivity].
  apply andb_true_iff in H as [H1 H2]. apply N.leb_le in H1, H2.
  repeat match goal with
  | |- context [?a =? ?b] => destruct (N.eqb_spec a b); [lia|]
  end.
  simpl. rewrite (proj2 (N.leb_le _ _) H1), (proj2 (N.leb_le _ _) H2). reflexivity.
Qed.

Lemma lex_from_number (s acc : jsstring) :
  forallb is_number_char s = true ->
  lex_from (LNumber acc) s = lex_flush (LNumber (rev s ++ acc)).
Proof.
  revert acc. induction s as [|c s IH]; intros acc; simpl; [reflexivity|].
  intros H. apply andb_true_iff in H as [Hc Hs]. rewrite Hc. simpl.
  rewrite IH by assumption. rewrite <- app_assoc. simpl.
  destruct (json_number (rev (rev s ++ c :: acc))); reflexivity.
Qed.

(** The text of a number lexes to the token [json_number] gives it, or
    fails with it. *)
Lemma parse_number_text (c : N) (s : jsstring) :
  is_digit c = true \/ c = chr "-" ->
  forallb is_number_char s = true ->
  JSON_parse (c :: s)
  = match json_number (c :: s) with
    | Some n => Ok (VNumber n)
    | None => Throw SyntaxError
    end.
Proof.
  intros Hc Hs. unfold JSON_parse, parse_text, lex. cbn [lex_from lex_step].
  rewrite (lex_idle_digit c Hc). simpl.
  rewrite lex_from_number by assumption. simpl.
  rewrite rev_app_distr, rev_involutive. simpl.
  destruct (json_number (c :: s)); reflexivity.
Qed.

Lemma forallb_digit_number (s : jsstring) :
  forallb is_digit s = true -> forallb is_number_char s = true.
Proof.
  induction s as [|c s IH]; simpl; [auto|].
  intros H. apply andb_true_iff in H as [Hc Hs].
  rewrite (is_digit_number_char c Hc). auto.
Qed.

Lemma digits1_all (a : jsstring) :
  a <> [] -> forallb is_digit a = true -> digits1 a = Some (a, []).
Proof.
  intros Hne Ha. unfold digits1.
  assert (span is_digit a = (a, [])) as ->.
  { clear Hne. induction a as [|c a IH]; simpl; [reflexivity|].
    simpl in Ha. apply andb_true_iff in Ha as [Hc Ha]. rewrite Hc, IH by assumption.
    reflexivity. }
  destruct a; [contradiction|reflexivity].
Qed.

Lemma digits1_dot (a rest : jsstring) :
  a <> [] -> forallb is_digit a = true ->
  digits1 (a ++ chr "." :: rest) = Some (a, chr "." :: rest).
Proof.
  intros Hne Ha. unfold digits1.
  assert (span is_digit (a ++ chr "." :: rest) = (a, chr "." :: rest)) as ->.
  { clear Hne. induction a as [|c a IH]; [reflexivity|].
    simpl in Ha. apply andb_true_iff in Ha as [Hc Ha].
    cbn [app span]. rewrite Hc, IH by assumption. reflexivity. }
  destruct a; [contradiction|reflexivity].
Qed.

(** The shape of a text that matches the numeric pattern. *)
Lemma matchNumeric_shape (val : jsstring) (neg : bool) (int frac : jsstring) :
  matchNumeric val = Some (neg, int, frac) ->
  val = (if neg then js "-" else []) ++ int
        ++ (match frac with [] => [] | _ => js "." ++ frac end)
  /\ int <> [] /\ forallb is_digit int = true /\ forallb is_digit frac = true
  /\ (neg = false -> head val <> Some (chr "-")).
Proof.
  unfold matchNumeric.
  set (sg := match val with
             | c :: rest => if c =? chr "-" then (true, rest) else (false, val)
             | [] => (false, val)
             end).
  assert (val = (if sg.1 then js "-" else []) ++ sg.2
          /\ (sg.1 = false -> head val <> Some (chr "-"))) as [Hval Hhead].
  { subst sg. destruct val as [|c rest]; simpl; [split; [reflexivity|discriminate]|].
    destruct (N.eqb_spec c (chr "-")) as [->|Hne]; simpl; (split; [reflexivity|]).
    - discriminate.
    - intros _ Heq. inversion Heq. contradiction. }
  destruct sg as [sgn s]. simpl in *.
  destruct (digits1 s) as [[i s']|] eqn:Hd; [|discriminate]. simpl.
  apply digits1_app in Hd as (-> & Hne & Hi).
  destruct s' as [|c rest].
  - intros [= <- <- <-]. rewrite app_nil_r in *. repeat split; auto.
  - destruct (N.eqb_spec c (chr ".")) as [->|]; [|discriminate].
    destruct (digits1 rest) as [[f s'']|] eqn:Hf; [|discriminate]. simpl.
    apply digits1_app in Hf as (-> & Hfne & Hf).
    destruct s''; [|discriminate]. intros [= <- <- <-].
    rewrite app_nil_r in *. destruct f as [|d f]; [contradiction|].
    repeat split; auto.
Qed.

Lemma json_number_of_match (val : jsstring) (m : bool * jsstring * jsstring) (n : number) :
  matchNumeric val = Some m -> json_number val = Some n -> n = NumberOfMatch m.
Proof.
  destruct m as [[neg int] frac]. intros Hm.
  apply matchNumeric_shape in Hm as (Hval & Hne & Hi & Hf & Hhead).
  unfold json_number, NumberOfMatch.
  assert (match val with
          | c :: rest => if c =? chr "-" then (true, rest) else (false, val)
          | [] => (false, val)
          end = (neg, int ++ match frac with [] => [] | _ => js "." ++ frac end)) as ->.
  { destruct neg.
    - rewrite Hval. reflexivity.
    - specialize (Hhead eq_refl). rewrite Hval in *. simpl in *.
      destruct (int ++ _) as [|c rest] eqn:E; [reflexivity|].
      destruct (N.eqb_spec c (chr "-")) as [->|]; [|reflexivity].
      simpl in Hhead. congruence. }
  destruct frac as [|d frac].
  - rewrite app_nil_r. rewrite digits1_all by assumption. simpl.
    destruct (_ && _); [discriminate|]. intros [= <-]. reflexivity.
  - change (js "." ++ d :: frac) with (chr "." :: d :: frac).
    rewrite digits1_dot by assumption. simpl.
    destruct (_ && _); [discriminate|].
    rewrite digits1_all by (auto; discriminate). simpl.
    intros [= <-]. reflexivity.
Qed.

Lemma numeric_text_chars (val : jsstring) (m : bool * jsstring * jsstring) :
  matchNumeric val = Some m ->
  exists c s, val = c :: s /\ (is_digit c = true \/ c = chr "-")
              /\ forallb is_number_char s = true.
Proof.
  destruct m as [[neg int] frac]. intros Hm.
  apply matchNumeric_shape in Hm as (Hval & Hne & Hi & Hf & _).
  assert (forallb is_number_char
            (int ++ match frac with [] => [] | _ => js "." ++ frac end) = true) as Hall.
  { rewrite forallb_app. rewrite forallb_digit_number by assumption.
    destruct frac; [reflexivity|]. simpl in Hf |- *.
    apply andb_true_iff in Hf as [Hd Hf].
    rewrite (is_digit_number_char _ Hd), forallb_digit_number by assumption.
    reflexivity. }
  destruct neg.
  - rewrite Hval. eexists _, _. split; [reflexivity|]. split; [right; reflexivity|].
    exact Hall.
  - destruct int as [|c int]; [contradiction|]. rewrite Hval. simpl in *.
    eexists _, _. split; [reflexivity|].
    apply andb_true_iff in Hi as [Hc Hi]. split; [left; assumption|].
    apply andb_true_iff in Hall as [_ Hall]. exact Hall.
Qed.

Lemma inferValue_numeric (val : jsstring) (m : bool * jsstring * jsstring) :
  matchNumeric val = Some m ->
  inferValue val = Ok (VNumber (NumberOfMatch m)).
Proof.
  intros Hm. destruct (numeric_text_chars val m Hm) as (c & s & -> & Hc & Hs).
  unfold inferValue. rewrite decide_False by discriminate.
  rewrite parse_number_text by assumption.
  destruct (json_number (c :: s)) as [n|] eqn:Hn; simpl.
  - rewrite (json_number_of_match _ _ _ Hm Hn). reflexivity.
  - rewrite Hm. reflexivity.
Qed.



(** *** Decimal digits *)

Lemma N_of_digits_app (ds : list N) (d : N) :
  N_of_digits (ds ++ [d]) = 10 * N_of_digits ds + d.
Proof. unfold N_of_digits. rewrite fold_left_app. reflexivity. Qed.

Lemma of_uint_acc_digits (u : Decimal.uint) (acc : positive) :
  Npos (Pos.of_uint_acc u acc)
  = fold_left (fun a d => 10 * a + d) (uint_digits u) (Npos acc).
Proof.
  revert acc. induction u; intros acc; cbn [Pos.of_uint_acc uint_digits fold_left];
    [reflexivity|..]; rewrite IHu; f_equal; lia.
Qed.

Lemma of_uint_digits (u : Decimal.uint) : N.of_uint u = N_of_digits (uint_digits u).
Proof.
  unfold N.of_uint, N_of_digits.
  induction u; cbn [Pos.of_uint uint_digits fold_left]; [reflexivity|exact IHu|..];
    rewrite of_uint_acc_digits; reflexivity.
Qed.

Lemma N_of_digits_of_N (n : N) : N_of_digits (digits_of_N n) = n.
Proof. unfold digits_of_N. rewrite <- of_uint_digits. apply DecimalN.Unsigned.of_to. Qed.

Lemma uint_digits_lt (u : Decimal.uint) : Forall (fun d => d < 10) (uint_digits u).
Proof. induction u; simpl; constructor; try assumption; lia. Qed.

Lemma digits_of_N_nonempty (n : N) : digits_of_N n <> [].
Proof.
  unfold digits_of_N. destruct n as [|p]; [discriminate|].
  pose proof (DecimalPos.Unsigned.to_uint_nonnil p) as H. simpl.
  destruct (Pos.to_uint p); [contradiction|discriminate..].
Qed.

(** The digits of a number that is not a multiple of ten end in a non-zero
    digit. *)
Lemma digits_of_N_last (n : N) :
  n mod 10 <> 0 -> exists ds d, digits_of_N n = ds ++ [d] /\ d <> 0.
Proof.
  intros Hn. pose proof (N_of_digits_of_N n) as Hv.
  induction (digits_of_N n) as [|x l _] using rev_ind.
  - exfalso. subst n. apply Hn. reflexivity.
  - exists l, x. split; [reflexivity|]. intros ->.
    rewrite N_of_digits_app in Hv. apply Hn. subst n.
    rewrite N.add_0_r, N.mul_comm. apply N.Div0.mod_mul.
Qed.

Lemma span_zeros (t : nat) (d : N) (rest : list N) :
  d <> 0 -> span (N.eqb 0) (repeat 0 t ++ d :: rest) = (repeat 0 t, d :: rest).
Proof.
  intros Hd. induction t as [|t IH]; simpl.
  - destruct d; [contradiction|reflexivity].
  - rewrite IH. reflexivity.
Qed.

Lemma strip_trailing_zeros_app (ds : list N) (d : N) (t : nat) :
  d <> 0 -> strip_trailing_zeros ((ds ++ [d]) ++ repeat 0 t) = (ds ++ [d], t).
Proof.
  intros Hd. unfold strip_trailing_zeros.
  rewrite rev_app_distr, rev_repeat, rev_app_distr. simpl.
  rewrite span_zeros by assumption.
  rewrite repeat_length. simpl. rewrite rev_involutive. reflexivity.
Qed.

Lemma digit_value_char (ds : list N) : map digit_value (map digit_char ds) = ds.
Proof.
  induction ds as [|d ds IH]; simpl; [reflexivity|]. rewrite IH. f_equal.
  unfold digit_value, digit_char. lia.
Qed.

Lemma digit_char_is_digit (ds : list N) :
  Forall (fun d => d < 10) ds -> forallb is_digit (map digit_char ds) = true.
Proof.
  induction 1 as [|d ds Hd _ IH]; simpl; [reflexivity|]. rewrite IH, andb_true_r.
  unfold is_digit, digit_char, chr. simpl.
  apply andb_true_iff. split; apply N.leb_le; lia.
Qed.

Lemma zeros_digits (t : nat) : forallb is_digit (zeros t) = true.
Proof. induction t; simpl; auto. Qed.

Lemma zeros_values (t : nat) : map digit_value (zeros t) = repeat 0 t.
Proof. unfold zeros. induction t; simpl; [reflexivity|]. rewrite IHt. reflexivity. Qed.

(** The text of a plain integer: its sign, the digits of its mantissa and
    as many zeros as its exponent. *)
Lemma plain_integer_text (m t : Z) :
  (m <> 0)%Z -> (0 <= t)%Z ->
  (Z.of_nat (length (digits_of_N (Z.abs_N m))) + t <= 21)%Z ->
  Number_toString (Num m t)
  = (if (m <? 0)%Z then js "-" else [])
    ++ map digit_char (digits_of_N (Z.abs_N m)) ++ zeros (Z.to_nat t).
Proof.
  intros Hm Ht Hlen. unfold Number_toString. cbn [mantissa exponent].
  destruct (Z.eqb_spec m 0); [contradiction|].
  rewrite length_map.
  set (k := Z.of_nat (length (digits_of_N (Z.abs_N m)))) in *.
  destruct (Z.leb_spec k (k + t)); [|lia].
  destruct (Z.leb_spec (k + t) 21); [|lia].
  simpl. replace (k + t - k)%Z with t by lia. reflexivity.
Qed.

Lemma matchNumeric_integer (neg : bool) (ds : jsstring) :
  ds <> [] -> forallb is_digit ds = true ->
  matchNumeric ((if neg then js "-" else []) ++ ds) = Some (neg, ds, []).
Proof.
  intros Hne Hd. destruct neg.
  - change (js "-" ++ ds) with (chr "-" :: ds). unfold matchNumeric.
    rewrite N.eqb_refl. rewrite digits1_all by assumption. reflexivity.
  - destruct ds as [|c ds]; [contradiction|]. cbn [app]. unfold matchNumeric.
    pose proof Hd as Hd'. simpl in Hd'. apply andb_true_iff in Hd' as [Hc _].
    destruct (N.eqb_spec c (chr "-")) as [->|]; [discriminate|].
    rewrite digits1_all by assumption. reflexivity.
Qed.

Lemma inferValue_plain_integer (x : number) :
  isPlainInteger x = true -> inferValue (Number_toString x) = Ok (VNumber x).
Proof.
  destruct x as [m t]. unfold isPlainInteger. cbn [mantissa exponent].
  destruct (Z.eqb_spec m 0) as [->|Hm].
  - intros Ht. apply Z.eqb_eq in Ht. subst t. reflexivity.
  - intros H. apply andb_true_iff in H as [H Hlen]. apply andb_true_iff in H as [Hmod Ht].
    apply negb_true_iff, Z.eqb_neq in Hmod. apply Z.leb_le in Ht, Hlen.
    rewrite plain_integer_text by assumption.
    assert (Z.abs_N m mod 10 <> 0) as Hmod'.
    { intros E. apply Hmod. apply (f_equal Z.of_N) in E.
      rewrite N2Z.inj_mod, N2Z.inj_abs_N in E. simpl in E.
      destruct (Z.abs_spec m) as [[_ Ha]|[_ Ha]]; rewrite Ha in E; [exact E|].
      apply Z.mod_divide in E; [|lia]. apply Z.mod_divide; [lia|].
      apply Z.divide_opp_r. exact E. }
    destruct (digits_of_N_last _ Hmod') as (ds & d & Hds & Hd).
    pose proof (uint_digits_lt (N.to_uint (Z.abs_N m))) as Hlt.
    fold (digits_of_N (Z.abs_N m)) in Hlt.
    set (text := map digit_char (digits_of_N (Z.abs_N m)) ++ zeros (Z.to_nat t)).
    assert (text <> []) as Hne.
    { subst text. rewrite Hds, map_app. simpl. intros E.
      apply app_eq_nil in E as [E _]. apply app_eq_nil in E as [_ E]. discriminate. }
    assert (forallb is_digit text = true) as Hdig.
    { subst text. rewrite forallb_app, digit_char_is_digit, zeros_digits by assumption.
      reflexivity. }
    rewrite (inferValue_numeric _ (m <? 0, text, [])%Z)
      by (apply matchNumeric_integer; assumption).
    do 2 f_equal. unfold NumberOfMatch, decimal_literal, make_number.
    rewrite app_nil_r. subst text. rewrite map_app, digit_value_char, zeros_values.
    rewrite Hds, strip_trailing_zeros_app by assumption. rewrite <- Hds.
    rewrite N_of_digits_of_N, N2Z.inj_abs_N.
    destruct (Z.eqb_spec (Z.abs m) 0); [lia|].
    simpl. f_equal; [|lia].
    destruct (Z.ltb_spec m 0); lia.
Qed.

(** A text that is not empty, not JSON and not numeric is kept as it is. *)
Lemma inferValue_opaque_text (s : jsstring) :
  isOpaqueText s = true -> inferValue s = Ok (VString s).
Proof.
  unfold isOpaqueText. intros H.
  apply andb_true_iff in H as [H Hnum]. apply andb_true_iff in H as [Hne Hjson].
  apply negb_true_iff, bool_decide_eq_false in Hne, Hjson, Hnum.
  unfold inferValue, JSON_parse. rewrite decide_False by assumption.
  destruct (parse_text s) as [?|] eqn:Hp; [exfalso; apply Hjson; eauto|]. simpl.
  destruct (matchNumeric s) as [?|] eqn:Hm; [exfalso; apply Hnum; eauto|].
  rewrite decide_False by (intros ->; discriminate).
  rewrite decide_False by (intros ->; discriminate).
  reflexivity.
Qed.

(** X3. The text the seeding makes of a row value infers back to that value
    when the value is null, a boolean, an integer printed in positional
    notation, or a text that is not empty, not JSON and not numeric; an
    undefined value comes back as null. *)
Theorem seeded_text_infers_value (v : primitive) :
  isStable v = true ->
  inferValue (stringOrEmpty v) = Ok (jsonOrNull v).
Proof.
  destruct v as [| |[|]|x|s]; simpl; try reflexivity.
  - apply inferValue_plain_integer.
  - apply inferValue_opaque_text.
Qed.

(** The integer -1200, whose mantissa is -12 and whose exponent is 2. *)
Lemma seeded_text_infers_value_witness :
  inferValue (stringOrEmpty (PNumber (number_of_Z (-1200)))) = Ok (VNumber (number_of_Z (-1200))).
Proof.
  apply (seeded_text_infers_value (PNumber (number_of_Z (-1200)))).
  vm_compute. reflexivity.
Defined.

(** *** Reading after writing *)

Section LookupFacts.
Context {V : Type}.
Implicit Types (props : list (jsstring * V)) (k : jsstring) (v : V).

Lemma obj_replace_lookup props k v :
  is_Some (obj_lookup props k) -> obj_lookup (obj_replace props k v) k = Some v.
Proof.
  induction props as [|[k' v'] rest IH]; simpl; [intros [? [=]]|].
  destruct (decide (k' = k)) as [->|Hne]; simpl.
  - intros _. rewrite decide_True; reflexivity.
  - intros H. rewrite decide_False by assumption. auto.
Qed.

Lemma obj_replace_lookup_ne props k v k' :
  k' <> k -> obj_lookup (obj_replace props k v) k' = obj_lookup props k'.
Proof.
  intros Hne. induction props as [|[k0 v0] rest IH]; simpl; [reflexivity|].
  destruct (decide (k0 = k)) as [->|]; simpl.
  - rewrite !decide_False by congruence. reflexivity.
  - destruct (decide (k0 = k')); [reflexivity|assumption].
Qed.

Lemma obj_insert_index_lookup_ne props n k v k' :
  k' <> k -> obj_lookup (obj_insert_index props n k v) k' = obj_lookup props k'.
Proof.
  intros Hne. induction props as [|[k0 v0] rest IH]; simpl.
  - rewrite decide_False by congruence. reflexivity.
  - destruct (array_index k0) as [m|]; [destruct (n <? m)|]; simpl.
    + rewrite (decide_False (P := k = k')) by congruence. reflexivity.
    + destruct (decide (k0 = k')); [reflexivity|assumption].
    + rewrite (decide_False (P := k = k')) by congruence. reflexivity.
Qed.

Lemma obj_append_lookup_ne props k v k' :
  k' <> k -> obj_lookup (props ++ [(k, v)]) k' = obj_lookup props k'.
Proof.
  intros Hne. induction props as [|[k0 v0] rest IH]; simpl.
  - rewrite decide_False by congruence. reflexivity.
  - destruct (decide (k0 = k')); [reflexivity|assumption].
Qed.

Lemma obj_define_lookup_ne props k v k' :
  k' <> k -> obj_lookup (obj_define props k v) k' = obj_lookup props k'.
Proof.
  intros Hne. unfold obj_define. destruct (obj_lookup props k).
  - apply obj_replace_lookup_ne. assumption.
  - destruct (array_index k).
    + apply obj_insert_index_lookup_ne. assumption.
    + apply obj_append_lookup_ne. assumption.
Qed.

Lemma obj_define_lookup_eq props k v : obj_lookup (obj_define props k v) k = Some v.
Proof.
  destruct (obj_lookup props k) as [v0|] eqn:Hl.
  - unfold obj_define. rewrite Hl. apply obj_replace_lookup. rewrite Hl. eauto.
  - apply obj_define_lookup. assumption.
Qed.

End LookupFacts.

Lemma array_store_lookup (elems : list (option json)) (n : nat) (v : json) :
  array_store elems n v !! n = Some (Some v).
Proof.
  unfold array_store. case_bool_decide as Hlt.
  - apply list_lookup_insert_eq. assumption.
  - rewrite lookup_app_r by lia. rewrite lookup_app_r by (rewrite length_replicate; lia).
    rewrite length_replicate. replace (n - length elems - (n - length elems))%nat with 0%nat by lia.
    reflexivity.
Qed.

Lemma array_store_lookup_ne (elems : list (option json)) (n i : nat) (v : json) :
  i <> n -> mjoin (array_store elems n v !! i) = mjoin (elems !! i).
Proof.
  intros Hne. unfold array_store. case_bool_decide as Hlt.
  - rewrite list_lookup_insert_ne by congruence. reflexivity.
  - destruct (decide (i < length elems)%nat).
    + rewrite lookup_app_l by assumption. reflexivity.
    + rewrite lookup_app_r by lia. rewrite (lookup_ge_None_2 elems i) by lia.
      destruct (decide (i - length elems < n - length elems)%nat).
      * rewrite lookup_app_l by (rewrite length_replicate; assumption).
        rewrite lookup_replicate_2 by assumption. reflexivity.
      * rewrite lookup_app_r by (rewrite length_replicate; lia).
        rewrite length_replicate.
        destruct (i - length elems - (n - length elems))%nat as [|j] eqn:E; [lia|].
        reflexivity.
Qed.

(** What an assignment stored is what a read of the same key returns. *)
Lemma js_get_after_set (target target' : json) (k : jsstring) (v : json) :
  js_set target k v = Ok target' -> js_get target' k = Ok (Some v).
Proof.
  destruct target as [| | | |elems|props]; simpl; try discriminate;
    try (destruct (decide _); discriminate).
  - destruct (array_index k) as [n|] eqn:Hn; [|discriminate].
    intros [= <-]. simpl. rewrite Hn, array_store_lookup. reflexivity.
  - destruct (obj_lookup props k) as [v0|] eqn:Hl.
    + intros [= <-]. simpl. rewrite obj_replace_lookup by (rewrite Hl; eauto). reflexivity.
    + destruct (decide _); [discriminate|]. intros [= <-]. simpl.
      rewrite obj_define_lookup by assumption. reflexivity.
Qed.

(** A property that is there can be assigned. *)
Lemma js_set_existing (target : json) (k : jsstring) (child v : json) :
  js_get target k = Ok (Some child) -> exists target', js_set target k v = Ok target'.
Proof.
  destruct target as [| | | |elems|props]; simpl; try discriminate;
    try (destruct (inherited _ k); discriminate).
  - destruct (array_index k); [eauto|discriminate].
  - destruct (obj_lookup props k); [eauto|].
    destruct (inherited _ k); discriminate.
Qed.

(** The container a completed walk ended in is where the path leads
    afterwards. *)
Lemma walk_read_back (path : list segment) (final : json -> result json)
    (target target' : json) :
  walk target path final = Ok target' ->
  exists c c', final c = Ok c' /\ resolve target' path = Some c'.
Proof.
  revert target target'. induction path as [|p rest IH]; intros target target'.
  - simpl. eauto.
  - cbn [walk]. destruct (js_get target (propertyKey p)) as [[child|]| |];
      cbn [mbind result_bind]; try discriminate.
    + destruct (walk child rest final) as [child'| |] eqn:Hw;
        cbn [mbind result_bind]; try discriminate.
      intros Hset. destruct (IH _ _ Hw) as (c & c' & Hf & Hr).
      exists c, c'. split; [assumption|]. cbn [resolve].
      rewrite (js_get_after_set _ _ _ _ Hset). assumption.
    + destruct (js_set target (propertyKey p) (freshContainer rest)) as [t1| |];
        cbn [mbind result_bind]; try discriminate.
      destruct (walk (freshContainer rest) rest final) as [child'| |] eqn:Hw;
        cbn [mbind result_bind]; try discriminate.
      intros Hset. destruct (IH _ _ Hw) as (c & c' & Hf & Hr).
      exists c, c'. split; [assumption|]. cbn [resolve].
      rewrite (js_get_after_set _ _ _ _ Hset). assumption.
Qed.

(** X4. After [setAtPath] with a key has returned, the path leads to a
    container in the result, and reading the key there gives the assigned
    value. *)
Theorem setAtPath_read_back (obj obj' : json) (path : option (list segment))
    (k : jsstring) (v : json) :
  setAtPath obj path (Some k) v = Ok obj' ->
  exists container, resolve obj' (default [] path) = Some container
                    /\ js_get container k = Ok (Some v).
Proof.
  unfold setAtPath. intros H.
  apply walk_read_back in H as (c & c' & Hf & Hr).
  exists c'. split; [assumption|]. eapply js_get_after_set. eassumption.
Qed.

(** The assignment of key c at path a, b in the empty document. *)
Lemma setAtPath_read_back_witness :
  exists container,
    resolve (VObject [(js "a", VObject [(js "b", VObject [(js "c", VNumber (number_of_Z 1))])])])
            [SKey (js "a"); SKey (js "b")] = Some container
    /\ js_get container (js "c") = Ok (Some (VNumber (number_of_Z 1))).
Proof.
  exact (setAtPath_read_back (VObject []) _ (Some [SKey (js "a"); SKey (js "b")]) (js "c")
           (VNumber (number_of_Z 1)) eq_refl).
Defined.

(** X5. Repeating a [setAtPath] that returned, on its result, returns that
    result again: the containers are found in place and nothing is created
    or reordered. *)
Theorem setAtPath_idempotent (obj obj' : json) (path : option (list segment))
    (k : jsstring) (v : json) :
  setAtPath obj path (Some k) v = Ok obj' ->
  setAtPath obj' path (Some k) v = Ok obj'.
Proof.
  unfold setAtPath. intros H.
  apply walk_read_back in H as (c & c' & Hf & Hr).
  eapply walk_resolved; [eassumption|].
  apply js_set_get_same. eapply js_get_after_set. eassumption.
Qed.

(** The assignment of key c at path a, 1, repeated on its result. *)
Lemma setAtPath_idempotent_witness :
  setAtPath (VObject [(js "a", VArray [None; Some (VObject [(js "c", VNumber (number_of_Z 1))])])])
    (Some [SKey (js "a"); SIndex (number_of_Z 1)]) (Some (js "c")) (VNumber (number_of_Z 1))
  = Ok (VObject [(js "a", VArray [None; Some (VObject [(js "c", VNumber (number_of_Z 1))])])]).
Proof.
  exact (setAtPath_idempotent (VObject []) _ (Some [SKey (js "a"); SIndex (number_of_Z 1)])
           (js "c") (VNumber (number_of_Z 1)) eq_refl).
Defined.

(** *** What a walk leaves alone *)

(** A walk that goes through a container it can reach splits there. *)
Lemma walk_split (pre rest : list segment) (final : json -> result json)
    (target target' t : json) :
  resolve target pre = Some t ->
  walk target (pre ++ rest) final = Ok target' ->
  exists t', walk t rest final = Ok t' /\ resolve target' pre = Some t'.
Proof.
  revert target target'. induction pre as [|p pre IH]; intros target target'.
  - simpl. intros [= <-] H. eauto.
  - cbn [resolve app walk].
    destruct (js_get target (propertyKey p)) as [[child|]| |]; try discriminate.
    intros Hres. cbn [mbind result_bind].
    destruct (walk child (pre ++ rest) final) as [child'| |] eqn:Hw;
      cbn [mbind result_bind]; try discriminate.
    intros Hset. destruct (IH _ _ Hres Hw) as (t' & Ht & Hr).
    exists t'. split; [assumption|].
    rewrite (js_get_after_set _ _ _ _ Hset). assumption.
Qed.

(** One step of a walk replaces the property it goes through, whether it
    was there or had to be made. *)
Lemma walk_step (target target' : json) (p : segment) (rest : list segment)
    (final : json -> result json) :
  walk target (p :: rest) final = Ok target' ->
  exists child', js_set target (propertyKey p) child' = Ok target'
                 \/ exists t1 fresh, js_set target (propertyKey p) fresh = Ok t1
                                     /\ js_set t1 (propertyKey p) child' = Ok target'.
Proof.
  cbn [walk]. destruct (js_get target (propertyKey p)) as [[child|]| |];
    cbn [mbind result_bind]; try discriminate.
  - destruct (walk child rest final) as [child'| |]; cbn [mbind result_bind];
      try discriminate. eauto.
  - destruct (js_set target (propertyKey p) (freshContainer rest)) as [t1| |] eqn:H1;
      cbn [mbind result_bind]; try discriminate.
    destruct (walk (freshContainer rest) rest final) as [child'| |];
      cbn [mbind result_bind]; try discriminate. eauto 6.
Qed.

Lemma js_set_object_frame (props : list (jsstring * json)) (k : jsstring) (v : json)
    (target' : json) :
  js_set (VObject props) k v = Ok target' ->
  exists props', target' = VObject props'
                 /\ forall k', k' <> k -> obj_lookup props' k' = obj_lookup props k'.
Proof.
  simpl. destruct (obj_lookup props k).
  - intros [= <-]. eexists. split; [reflexivity|]. intros. apply obj_replace_lookup_ne.
    assumption.
  - destruct (decide _); [discriminate|]. intros [= <-]. eexists. split; [reflexivity|].
    intros. apply obj_define_lookup_ne. assumption.
Qed.

Lemma js_set_array_frame (elems : list (option json)) (k : jsstring) (v : json)
    (target' : json) :
  js_set (VArray elems) k v = Ok target' ->
  exists n elems', array_index k = Some n /\ target' = VArray elems'
                   /\ forall i, i <> N.to_nat n -> mjoin (elems' !! i) = mjoin (elems !! i).
Proof.
  simpl. destruct (array_index k) as [n|]; [|discriminate].
  intros [= <-]. eexists _, _. split; [reflexivity|]. split; [reflexivity|].
  intros. apply array_store_lookup_ne. assumption.
Qed.

(** X6. At every container the path goes through, the walk changes only
    the property the path goes through: an object there keeps the values of
    all its other keys, and an array there keeps its elements at all other
    indices. *)
Theorem walk_keeps_siblings (pre rest : list segment) (p : segment)
    (final : json -> result json) (doc doc' : json) :
  walk doc (pre ++ p :: rest) final = Ok doc' ->
  (forall props, resolve doc pre = Some (VObject props) ->
     exists props', resolve doc' pre = Some (VObject props')
       /\ forall k', k' <> propertyKey p -> obj_lookup props' k' = obj_lookup props k')
  /\ (forall elems, resolve doc pre = Some (VArray elems) ->
        exists n elems', array_index (propertyKey p) = Some n
          /\ resolve doc' pre = Some (VArray elems')
          /\ forall i, i <> N.to_nat n -> mjoin (elems' !! i) = mjoin (elems !! i)).
Proof.
  intros Hw. split.
  - intros props Hres. destruct (walk_split _ _ _ _ _ _ Hres Hw) as (t' & Ht & Hr).
    apply walk_step in Ht as (child' & [Hs|(t1 & fresh & H1 & H2)]).
    + apply js_set_object_frame in Hs as (props' & -> & Hf). eauto.
    + apply js_set_object_frame in H1 as (props1 & -> & Hf1).
      apply js_set_object_frame in H2 as (props' & -> & Hf2).
      exists props'. split; [assumption|]. intros k' Hk. rewrite Hf2, Hf1 by assumption.
      reflexivity.
  - intros elems Hres. destruct (walk_split _ _ _ _ _ _ Hres Hw) as (t' & Ht & Hr).
    apply walk_step in Ht as (child' & [Hs|(t1 & fresh & H1 & H2)]).
    + apply js_set_array_frame in Hs as (n & elems' & Hn & -> & Hf). eauto 6.
    + apply js_set_array_frame in H1 as (n & elems1 & Hn & -> & Hf1).
      apply js_set_array_frame in H2 as (n' & elems' & Hn' & -> & Hf2).
      assert (n' = n) by congruence. subst n'.
      exists n, elems'. split; [assumption|]. split; [assumption|].
      intros i Hi. rewrite Hf2, Hf1 by assumption. reflexivity.
Qed.

(** The assignment of name in the user document: the object under user
    keeps age. *)
Lemma walk_keeps_siblings_witness :
  exists props',
    resolve (VObject [(js "user", VObject [(js "name", VString (js "Carol"));
                                           (js "age", VNumber (number_of_Z 30))])])
            [SKey (js "user")] = Some (VObject props')
    /\ forall k', k' <> js "name" ->
         obj_lookup props' k'
         = obj_lookup [(js "name", VString (js "Bob")); (js "age", VNumber (number_of_Z 30))] k'.
Proof.
  destruct (walk_keeps_siblings [SKey (js "user")] [] (SKey (js "name"))
              (fun t => Ok (VString (js "Carol"))) userDocument
              (VObject [(js "user", VObject [(js "name", VString (js "Carol"));
                                             (js "age", VNumber (number_of_Z 30))])])
              eq_refl) as [H _].
  exact (H _ eq_refl).
Defined.

(** *** Null on the path *)

Lemma walk_throws_below (pre rest : list segment) (final : json -> result json)
    (target t : json) (e : exn) :
  resolve target pre = Some t ->
  walk t rest final = Throw e ->
  walk target (pre ++ rest) final = Throw e.
Proof.
  revert target. induction pre as [|p pre IH]; intros target.
  - simpl. intros [= <-] H. assumption.
  - cbn [resolve app walk].
    destruct (js_get target (propertyKey p)) as [[child|]| |]; try discriminate.
    intros Hres Hw. cbn [mbind result_bind]. rewrite (IH _ Hres Hw). reflexivity.
Qed.

(** X7. When the path reaches null, [setAtPath] throws a [TypeError] if it
    has a key to assign there or further segments to walk; with a null key
    and no further segment it returns the value. *)
Theorem setAtPath_null_on_path (obj : json) (pre rest : list segment)
    (k : jsstring) (key : option jsstring) (p : segment) (v : json) :
  resolve obj pre = Some VNull ->
  setAtPath obj (Some (pre ++ rest)) (Some k) v = Throw TypeError
  /\ setAtPath obj (Some (pre ++ p :: rest)) key v = Throw TypeError
  /\ setAtPath obj (Some pre) None v = Ok v.
Proof.
  intros Hres. unfold setAtPath. cbn [default from_option id]. split; [|split].
  - eapply walk_throws_below; [eassumption|]. destruct rest; reflexivity.
  - destruct key.
    + eapply walk_throws_below; [eassumption|]. reflexivity.
    + rewrite (walk_throws_below pre (p :: rest) Ok obj VNull TypeError Hres eq_refl).
      reflexivity.
  - rewrite (walk_resolved pre Ok obj VNull Hres eq_refl). reflexivity.
Qed.

(** Path a, b in a document whose a is null. *)
Lemma setAtPath_null_on_path_witness :
  setAtPath (VObject [(js "a", VNull)]) (Some [SKey (js "a"); SKey (js "b")]) (Some (js "c"))
    (VNumber (number_of_Z 1)) = Throw TypeError.
Proof.
  exact (proj1 (proj2 (setAtPath_null_on_path (VObject [(js "a", VNull)]) [SKey (js "a")] []
           (js "c") (Some (js "c")) (SKey (js "b")) (VNumber (number_of_Z 1)) eq_refl))).
Defined.

(** *** The composite branch *)

Lemma inferValue_returns (val : jsstring) : exists v, inferValue val = Ok v.
Proof.
  unfold inferValue, JSON_parse. destruct (decide (val = [])); [eauto|].
  destruct (parse_text val); simpl; [eauto|].
  destruct (matchNumeric val); [eauto|]. repeat case_decide; eauto.
Qed.

(** A walk along a path that exists completes when its last step does, and
    the path then leads to what that step returned. *)
Lemma walk_resolved_update (path : list segment) (final : json -> result json)
    (target c c' : json) :
  resolve target path = Some c ->
  final c = Ok c' ->
  exists target', walk target path final = Ok target' /\ resolve target' path = Some c'.
Proof.
  revert target. induction path as [|p rest IH]; intros target.
  - simpl. intros [= ->] Hf. eauto.
  - cbn [resolve walk].
    destruct (js_get target (propertyKey p)) as [[child|]| |] eqn:Hget; try discriminate.
    intros Hres Hf. destruct (IH _ Hres Hf) as (child' & Hw & Hr).
    cbn [mbind result_bind]. rewrite Hw. cbn [mbind result_bind].
    destruct (js_set_existing _ _ _ child' Hget) as (target' & Hset).
    exists target'. split; [assumption|].
    rewrite (js_get_after_set _ _ _ _ Hset). assumption.
Qed.

Lemma js_set_object_define (props : list (jsstring * json)) (k : jsstring) (v : json) :
  k <> js "__proto__" -> js_set (VObject props) k v = Ok (VObject (obj_define props k v)).
Proof.
  intros Hk. simpl. unfold obj_define. destruct (obj_lookup props k); [reflexivity|].
  rewrite decide_False by assumption. reflexivity.
Qed.

Lemma applyEdits_container (path : option (list segment)) (edited : gmap nat jsstring)
    (rows : list NodeRow) (idx : nat) (doc : json) (props : list (jsstring * json)) :
  resolve doc (default [] path) = Some (VObject props) ->
  (forall row, row ∈ rows -> isEditable row = true -> keyOf row <> js "__proto__") ->
  exists doc', applyEdits idx rows path edited doc = Ok doc'
    /\ resolve doc' (default [] path) = Some (VObject (editContainer idx rows edited props)).
Proof.
  revert idx doc props. induction rows as [|row rest IH]; intros idx doc props Hres Hkeys.
  - simpl. eauto.
  - assert (forall r, r ∈ rest -> isEditable r = true -> keyOf r <> js "__proto__") as Hrest.
    { intros r Hr. apply Hkeys. apply elem_of_cons. auto. }
    cbn [applyEdits editContainer].
    destruct (isEditable row) eqn:He; [|cbn [mbind result_bind]; apply IH; assumption].
    destruct (edited !! idx) as [e|]; [|cbn [mbind result_bind]; apply IH; assumption].
    destruct (inferValue_returns e) as (v & Hv). rewrite Hv. cbn [mbind result_bind].
    assert (keyOf row <> js "__proto__") as Hk.
    { apply Hkeys; [apply elem_of_cons; auto|assumption]. }
    destruct (walk_resolved_update (default [] path)
                (fun t => js_set t (keyOf row) v) doc _ _ Hres
                (js_set_object_define props (keyOf row) v Hk)) as (doc1 & Hw & Hr1).
    unfold setAtPath. rewrite Hw. cbn [mbind result_bind]. apply IH; assumption.
Qed.

Lemma editContainer_frame (edited : gmap nat jsstring) (rows : list NodeRow) (idx : nat)
    (props : list (jsstring * json)) (k' : jsstring) :
  (forall row, row ∈ rows -> isEditable row = true -> keyOf row <> k') ->
  obj_lookup (editContainer idx rows edited props) k' = obj_lookup props k'.
Proof.
  revert idx props. induction rows as [|row rest IH]; intros idx props Hkeys; [reflexivity|].
  cbn [editContainer]. rewrite IH by (intros r Hr; apply Hkeys; apply elem_of_cons; auto).
  destruct (isEditable row) eqn:He; [|reflexivity].
  destruct (edited !! idx); [|reflexivity].
  destruct (inferValue _); try reflexivity.
  apply obj_define_lookup_ne. intros Heq.
  eapply Hkeys; [apply elem_of_cons; left; reflexivity|assumption|symmetry; exact Heq].
Qed.

(** X9. For a composite node whose path leads to an object of an object
    document, and whose editable keys are not [__proto__], the composite
    branch returns a document in which the path leads to that object after
    the edits: every editable row with a buffer entry has defined its key
    with the inferred value, and every key that no editable row names holds
    what it held. *)
Theorem composite_save_edits_container (node : NodeData) (edited : gmap nat jsstring)
    (props container : list (jsstring * json)) :
  isScalarNode (Some node) = false ->
  resolve (VObject props) (default [] (path node)) = Some (VObject container) ->
  (forall row, row ∈ text node -> isEditable row = true -> keyOf row <> js "__proto__") ->
  exists doc',
    newDocument (VObject props) (Some node) edited = Ok doc'
    /\ resolve doc' (default [] (path node))
       = Some (VObject (editContainer 0 (text node) edited container))
    /\ forall k', (forall row, row ∈ text node -> isEditable row = true -> keyOf row <> k') ->
         obj_lookup (editContainer 0 (text node) edited container) k'
         = obj_lookup container k'.
Proof.
  intros Hscalar Hres Hkeys. unfold newDocument. rewrite Hscalar. cbn [spread].
  destruct (applyEdits_container (path node) edited (text node) 0 _ _ Hres Hkeys)
    as (doc' & Ha & Hr).
  exists doc'. split; [assumption|]. split; [assumption|].
  intros k' Hk. apply editContainer_frame. assumption.
Qed.

(** The user node with the entry Carol. *)
Lemma composite_save_edits_container_witness :
  exists doc',
    newDocument userDocument (Some userNode) {[0%nat := js "Carol"]} = Ok doc'
    /\ resolve doc' [SKey (js "user")]
       = Some (VObject [(js "name", VString (js "Carol"));
                        (js "age", VNumber (number_of_Z 30))]).
Proof.
  destruct (composite_save_edits_container userNode {[0%nat := js "Carol"]}
              [(js "user", VObject [(js "name", VString (js "Bob"));
                                    (js "age", VNumber (number_of_Z 30))])]
              [(js "name", VString (js "Bob")); (js "age", VNumber (number_of_Z 30))]
              eq_refl eq_refl) as (doc' & H1 & H2 & _).
  - intros row Hrow _. apply list_elem_of_singleton in Hrow. subst row. discriminate.
  - exists doc'. split; [exact H1|exact H2].
Defined.

(** *** The saved document is an object *)

Lemma walk_object (path : list segment) (final : json -> result json)
    (target target' : json) :
  isObject target = true ->
  (forall c c', isObject c = true -> final c = Ok c' -> isObject c' = true) ->
  walk target path final = Ok target' ->
  isObject target' = true.
Proof.
  intros Hobj Hfinal. destruct path as [|p rest]; [apply Hfinal; assumption|].
  destruct target as [| | | | |props]; try discriminate.
  intros Hw. apply walk_step in Hw as (child' & [Hs|(t1 & fresh & H1 & H2)]).
  - apply js_set_object_frame in Hs as (? & -> & _). reflexivity.
  - apply js_set_object_frame in H1 as (? & -> & _).
    apply js_set_object_frame in H2 as (? & -> & _). reflexivity.
Qed.

Lemma applyEdits_object (path : option (list segment)) (edited : gmap nat jsstring)
    (rows : list NodeRow) (idx : nat) (doc doc' : json) :
  isObject doc = true ->
  applyEdits idx rows path edited doc = Ok doc' ->
  isObject doc' = true.
Proof.
  revert idx doc. induction rows as [|row rest IH]; intros idx doc Hobj.
  - simpl. intros [= <-]. assumption.
  - cbn [applyEdits].
    destruct (isEditable row); [|cbn [mbind result_bind]; apply IH; assumption].
    destruct (edited !! idx) as [e|]; [|cbn [mbind result_bind]; apply IH; assumption].
    destruct (inferValue e) as [v| |]; cbn [mbind result_bind]; try discriminate.
    destruct (setAtPath doc path (Some (keyOf row)) v) as [doc1| |] eqn:Hset;
      cbn [mbind result_bind]; try discriminate.
    apply IH. unfold setAtPath in Hset.
    eapply walk_object; [exact Hobj| |exact Hset].
    intros c c' Hc Hs. destruct c; try discriminate.
    apply js_set_object_frame in Hs as (? & -> & _). reflexivity.
Qed.

(** X10. The composite branch works on [{...jsonObj}] and so always
    serializes an object: a document that is an array is never saved back as
    an array, and without a selected node the saved document is the object of
    the own properties of the parsed one. *)
Theorem composite_save_is_object (jsonObj : json) (nodeData : option NodeData)
    (edited : gmap nat jsstring) (doc' : json) :
  isScalarNode nodeData = false ->
  newDocument jsonObj nodeData edited = Ok doc' ->
  isObject doc' = true
  /\ (forall elems, doc' <> VArray elems)
  /\ (nodeData = None -> doc' = VObject (spread jsonObj)).
Proof.
  intros Hscalar. unfold newDocument. rewrite Hscalar. intros H.
  assert (isObject doc' = true) as Hobj.
  { destruct nodeData as [node|].
    - eapply applyEdits_object; [|exact H]. reflexivity.
    - injection H as <-. reflexivity. }
  split; [assumption|]. split.
  - intros elems ->. discriminate.
  - intros ->. injection H as <-. reflexivity.
Qed.

(** A document that is an array with one object: the save turns it into an
    object with the key 0. *)
Lemma composite_save_is_object_witness :
  newDocument (VArray [Some (VObject [(js "name", VString (js "Bob"))])])
    (Some {| text := [{| key := Some (js "name"); value := PString (js "Bob");
                         type := js "string" |}];
             path := Some [SIndex (number_of_Z 0)] |})
    {[0%nat := js "Carol"]}
  = Ok (VObject [(js "0", VObject [(js "name", VString (js "Carol"))])])
  /\ isObject (VObject [(js "0", VObject [(js "name", VString (js "Carol"))])]) = true.
Proof.
  split; [reflexivity|].
  exact (proj1 (composite_save_is_object
           (VArray [Some (VObject [(js "name", VString (js "Bob"))])])
           (Some {| text := [{| key := Some (js "name"); value := PString (js "Bob");
                                type := js "string" |}];
                    path := Some [SIndex (number_of_Z 0)] |})
           {[0%nat := js "Carol"]} _ eq_refl eq_refl)).
Defined.

(** *** Entries that no row reads *)

Lemma applyEdits_ext (path : option (list segment)) (e1 e2 : gmap nat jsstring)
    (rows : list NodeRow) (idx : nat) (doc : json) :
  (forall i row, rows !! i = Some row -> isEditable row = true ->
     e1 !! (idx + i)%nat = e2 !! (idx + i)%nat) ->
  applyEdits idx rows path e1 doc = applyEdits idx rows path e2 doc.
Proof.
  revert idx doc. induction rows as [|row rest IH]; intros idx doc Hext; [reflexivity|].
  cbn [applyEdits].
  assert (forall d, applyEdits (S idx) rest path e1 d = applyEdits (S idx) rest path e2 d)
    as Hrest.
  { intros d. apply IH. intros i r Hr He.
    replace (S idx + i)%nat with (idx + S i)%nat by lia.
    apply (Hext (S i) r); assumption. }
  destruct (isEditable row) eqn:He.
  - pose proof (Hext 0%nat row eq_refl He) as H0. rewrite Nat.add_0_r in H0.
    rewrite <- H0.
    destruct (match e1 !! idx with
              | Some e => parsed ← inferValue e;
                          setAtPath doc path (Some (keyOf row)) parsed
              | None => Ok doc
              end); cbn [mbind result_bind]; auto.
  - cbn [mbind result_bind]. apply Hrest.
Qed.

(** X11. The composite branch reads the buffer only at the indices of
    editable rows: two buffers that agree there give the same document. *)
Theorem save_reads_editable_entries (jsonObj : json) (node : NodeData)
    (e1 e2 : gmap nat jsstring) :
  isScalarNode (Some node) = false ->
  (forall idx row, text node !! idx = Some row -> isEditable row = true ->
     e1 !! idx = e2 !! idx) ->
  newDocument jsonObj (Some node) e1 = newDocument jsonObj (Some node) e2.
Proof.
  intros Hscalar Hext. unfold newDocument. rewrite Hscalar.
  apply applyEdits_ext. intros i row Hrow He. simpl. apply (Hext i row); assumption.
Qed.

(** An entry at index 7, where the user node has no row. *)
Lemma save_reads_editable_entries_witness :
  newDocument userDocument (Some userNode) (<[7%nat := js "x"]> {[0%nat := js "Carol"]})
  = newDocument userDocument (Some userNode) {[0%nat := js "Carol"]}.
Proof.
  apply (save_reads_editable_entries userDocument userNode); [reflexivity|].
  intros idx row Hrow _. destruct idx as [|idx]; [reflexivity|].
  simpl in Hrow. rewrite lookup_nil in Hrow. discriminate.
Defined.

(** *** Quoted text *)

Lemma lex_from_string (s acc : jsstring) :
  isPlainText s = true ->
  lex_from (LString acc) (s ++ [34]) = Some [TString (rev acc ++ s)].
Proof.
  revert acc. induction s as [|c s IH]; intros acc Hs.
  - simpl. rewrite app_nil_r. reflexivity.
  - simpl in Hs. apply andb_true_iff in Hs as [Hc Hs].
    apply andb_true_iff in Hc as [Hc Hbs]. apply andb_true_iff in Hc as [Hge Hq].
    apply negb_true_iff in Hq, Hbs. apply N.leb_le in Hge.
    cbn [app lex_from lex_step]. rewrite Hq, Hbs.
    destruct (N.ltb_spec c 32); [lia|]. cbn [mbind option_bind].
    rewrite IH by assumption. simpl. rewrite <- app_assoc. reflexivity.
Qed.

(** X2. A text between double quotes, without quote, backslash or control
    character in it, is inferred as the string of that text: quoting is how
    an edit keeps a text such as 123 a string. *)
Theorem quoted_text_infers_string (s : jsstring) :
  isPlainText s = true ->
  inferValue ([34] ++ s ++ [34]) = Ok (VString s).
Proof.
  intros Hs. unfold inferValue. rewrite decide_False by discriminate.
  unfold JSON_parse, parse_text, lex. cbn [app lex_from lex_step].
  change (lex_idle 34) with (Some (LString [], @nil token)). cbn [mbind option_bind].
  rewrite lex_from_string by assumption. reflexivity.
Qed.



(** The text 123 between quotes. *)
Lemma quoted_text_infers_string_witness :
  inferValue (jq "'123'") = Ok (VString (js "123")).
Proof. exact (quoted_text_infers_string (js "123") ltac:(vm_compute; reflexivity)). Defined.

(** *** The scalar branch *)

Section SaveOutcomes.
Context {Format Store : Type} (env : Collaborators Format Store).

(** X8. For a node with one row that has no key, whatever the parsed
    document and the path are, the document a completed scalar branch returns
    is the value inferred from the entry at index 0 (or from the empty text),
    and that value alone is what [handleSave] serializes and persists. *)
Theorem scalar_save_discards_document (node : NodeData) (row : NodeRow)
    (edited : gmap nat jsstring) (w : World Store) (jsonObj newObj : json) :
  text node = [row] ->
  hasKey row = false ->
  contentToJson env (getContents env (store w)) (getFormat env (store w)) = Ok jsonObj ->
  newDocument jsonObj (Some node) edited = Ok newObj ->
  inferValue (default [] (edited !! 0%nat)) = Ok newObj
  /\ handleSave env (Some node) edited w
     = try_catch (persist env newObj w) (fun err => Ok (console_warn err w)).
Proof.
  intros Htext Hkey Hparse Hnew. split.
  - revert Hnew. unfold newDocument, isScalarNode. rewrite Htext, Hkey. simpl.
    destruct (inferValue _) as [newVal| |]; cbn [mbind result_bind]; try discriminate.
    unfold setAtPath. destruct (walk _ _ _); cbn [mbind result_bind]; try discriminate.
    auto.
  - unfold handleSave, saveAttempt. rewrite Hparse. cbn [mbind result_bind].
    rewrite Hnew. reflexivity.
Qed.

(** X12. A save that returns has either persisted, called [onClose] once
    and logged nothing, or logged one warning and not called [onClose]. *)
Theorem save_closes_or_warns (nodeData : option NodeData) (edited : gmap nat jsstring)
    (w w' : World Store) :
  handleSave env nodeData edited w = Ok w' ->
  (closeCalls w' = S (closeCalls w) /\ warnings w' = warnings w)
  \/ (exists err, warnings w' = err :: warnings w /\ closeCalls w' = closeCalls w).
Proof.
  unfold handleSave.
  destruct (saveAttempt env nodeData edited w) as [w1|err|] eqn:Hs; simpl;
    [|intros [= <-]; right; exists err; auto|discriminate].
  intros [= <-]. left. revert Hs. unfold saveAttempt, persist.
  destruct (contentToJson env _ _); cbn [mbind result_bind]; try discriminate.
  destruct (newDocument _ _ _); cbn [mbind result_bind]; try discriminate.
  destruct (jsonToContent env _ _); cbn [mbind result_bind]; try discriminate.
  destruct (setContents env _ _); cbn [mbind result_bind]; try discriminate.
  intros [= <-]. auto.
Qed.

(** X13. Opening a composite node and saving without typing persists the
    parsed document unchanged, when the document is an object in which the
    path leads to an object that holds, under the key of every editable row,
    the value of the row, and these values are null, booleans, plain
    integers or opaque texts. *)
Theorem untouched_save_keeps_document (node : NodeData) (s : State) (w : World Store)
    (props container : list (jsstring * json)) :
  isScalarNode (Some node) = false ->
  contentToJson env (getContents env (store w)) (getFormat env (store w))
    = Ok (VObject props) ->
  resolve (VObject props) (default [] (path node)) = Some (VObject container) ->
  (forall row, row ∈ text node -> isEditable row = true ->
     isStable (value row) = true
     /\ obj_lookup container (keyOf row) = Some (jsonOrNull (value row))) ->
  newDocument (VObject props) (Some node) (editedValues (onOpen true (Some node) s))
  = Ok (VObject props)
  /\ handleSave env (Some node) (editedValues (onOpen true (Some node) s)) w
     = try_catch (persist env (VObject props) w) (fun err => Ok (console_warn err w)).
Proof.
  intros Hscalar Hparse Hres Hrows.
  assert (newDocument (VObject props) (Some node)
            (editedValues (onOpen true (Some node) s)) = Ok (VObject props)) as Hnew.
  { unfold newDocument. rewrite Hscalar. cbn [spread].
    apply (applyEdits_unchanged _ _ _ container); [assumption|].
    intros i row e Hrow He. simpl. rewrite seed_lookup, Hrow, He. intros [= <-].
    destruct (Hrows row (list_elem_of_lookup_2 _ _ _ Hrow) He) as [Hst Hl].
    exists (jsonOrNull (value row)). split; [|assumption].
    destruct (value row) as [| |[|]|x|t]; simpl in Hst |- *; try reflexivity.
    - apply inferValue_plain_integer. assumption.
    - apply inferValue_opaque_text. assumption. }
  split; [assumption|].
  unfold handleSave, saveAttempt. rewrite Hparse. cbn [mbind result_bind].
  rewrite Hnew. reflexivity.
Qed.

End SaveOutcomes.

(** The scalar node of the specification with the entry 9. *)
Lemma scalar_save_discards_document_witness :
  inferValue (default [] (({[0%nat := js "9"]} : gmap nat jsstring) !! 0%nat))
  = Ok (VNumber (number_of_Z 9))
  /\ handleSave jsonEnv (Some countNode) {[0%nat := js "9"]}
       (worldOf (jq "{'count':5,'other':1}"))
     = Ok {| store := js "9"; closeCalls := 1; warnings := [] |}.
Proof.
  destruct (scalar_save_discards_document jsonEnv countNode
              {| key := None; value := PNumber (number_of_Z 5); type := js "number" |}
              {[0%nat := js "9"]} (worldOf (jq "{'count':5,'other':1}"))
              countDocument (VNumber (number_of_Z 9))) as [H1 H2];
    try (vm_compute; reflexivity).
  split; [exact H1|]. rewrite H2. vm_compute. reflexivity.
Defined.

(** A save that succeeds, and a save of contents that do not parse. *)
Lemma save_closes_or_warns_witness :
  closeCalls {| store := jq "{'user':{'name':'Carol','age':30}}";
                closeCalls := 1; warnings := @nil exn |} = 1%nat
  /\ warnings (console_warn SyntaxError (worldOf (js "{"))) = [SyntaxError].
Proof.
  split.
  - destruct (save_closes_or_warns jsonEnv (Some userNode) {[0%nat := js "Carol"]}
                (worldOf (jq "{'user':{'name':'Bob','age':30}}"))
                {| store := jq "{'user':{'name':'Carol','age':30}}";
                   closeCalls := 1; warnings := [] |}) as [[H _]|(err & H & _)].
    + vm_compute. reflexivity.
    + exact H.
    + discriminate H.
  - destruct (save_closes_or_warns jsonEnv (Some userNode) {[0%nat := js "Carol"]}
                (worldOf (js "{")) (console_warn SyntaxError (worldOf (js "{"))))
      as [[H _]|(err & H & _)].
    + vm_compute. reflexivity.
    + discriminate H.
    + reflexivity.
Defined.

(** A node with the rows name and age over the document that holds them. *)
Lemma untouched_save_keeps_document_witness :
  handleSave jsonEnv
    (Some {| text := [{| key := Some (js "name"); value := PString (js "Bob");
                         type := js "string" |};
                      {| key := Some (js "age"); value := PNumber (number_of_Z 30);
                         type := js "number" |}];
             path := Some [SKey (js "user")] |})
    (editedValues (onOpen true
       (Some {| text := [{| key := Some (js "name"); value := PString (js "Bob");
                            type := js "string" |};
                         {| key := Some (js "age"); value := PNumber (number_of_Z 30);
                            type := js "number" |}];
                path := Some [SKey (js "user")] |}) (editing ∅)))
    (worldOf (jq "{'user':{'name':'Bob','age':30}}"))
  = Ok {| store := jq "{'user':{'name':'Bob','age':30}}"; closeCalls := 1; warnings := [] |}.
Proof.
  destruct (untouched_save_keeps_document jsonEnv
    {| text := [{| key := Some (js "name"); value := PString (js "Bob");
                   type := js "string" |};
                {| key := Some (js "age"); value := PNumber (number_of_Z 30);
                   type := js "number" |}];
       path := Some [SKey (js "user")] |}
    (editing ∅) (worldOf (jq "{'user':{'name':'Bob','age':30}}"))
    [(js "user", VObject [(js "name", VString (js "Bob"));
                          (js "age", VNumber (number_of_Z 30))])]
    [(js "name", VString (js "Bob")); (js "age", VNumber (number_of_Z 30))]
    eq_refl ltac:(vm_compute; reflexivity) ltac:(vm_compute; reflexivity)) as [_ H].
  - intros row Hrow _. apply elem_of_cons in Hrow as [->|Hrow];
      [split; vm_compute; reflexivity|].
    apply list_elem_of_singleton in Hrow. subst row. split; vm_compute; reflexivity.
  - rewrite H. vm_compute. reflexivity.
Defined.

(** *** The edit view *)

(** The two tests of the edit view together are the test of the seeding. *)
Lemma renderRows_lookup (node : NodeData) (edited : gmap nat jsstring) (idx : nat) :
  renderRows (Some node) edited !! idx
  = row ← text node !! idx;
    Some (if isEditable row then Some (fieldOf idx row edited) else None).
Proof.
  unfold renderRows. rewrite list_lookup_imap.
  destruct (text node !! idx) as [row|]; [|reflexivity]. simpl. f_equal.
  unfold isEditable, fieldOf.
  destruct (bool_decide (type row = js "array")); [reflexivity|].
  destruct (bool_decide (type row = js "object")); [reflexivity|].
  destruct (hasKey row); [|reflexivity].
  destruct (bool_decide (keyOf row = js "details")); reflexivity.
Qed.

(** X14. The edit view shows a field at an index exactly when the seeded
    buffer has an entry there; with the seeded buffer the field carries the
    index, the key of the row as label and the seeded text as value. *)
Theorem edit_view_matches_buffer (node : NodeData) (s : State)
    (edited : gmap nat jsstring) (idx : nat) :
  (is_Some (editedValues (onOpen true (Some node) s) !! idx)
   <-> exists field, renderRows (Some node) edited !! idx = Some (Some field))
  /\ (forall field,
        renderRows (Some node) (editedValues (onOpen true (Some node) s)) !! idx
        = Some (Some field) ->
        fieldIndex field = idx
        /\ editedValues (onOpen true (Some node) s) !! idx = Some (fieldValue field)
        /\ exists row, text node !! idx = Some row /\ fieldLabel field = keyOf row
                       /\ fieldValue field = stringOrEmpty (value row)).
Proof.
  change (editedValues (onOpen true (Some node) s)) with (seedRows 0 (text node) ∅).
  split.
  - rewrite renderRows_lookup, seed_lookup.
    destruct (text node !! idx) as [row|]; simpl.
    + destruct (isEditable row); split; eauto.
      * intros [? [=]].
      * intros [? [=]].
    + split; [intros [? [=]]|intros [? [=]]].
  - intros field. rewrite renderRows_lookup.
    destruct (text node !! idx) as [row|] eqn:Hrow; simpl; [|discriminate].
    destruct (isEditable row) eqn:He; [|discriminate].
    intros [= <-]. unfold fieldOf. simpl. rewrite seed_lookup, Hrow, He. simpl.
    repeat split. eauto.
Qed.

(** X15. After [setEditedValue] at the index of an editable row the edit
    view shows the typed text in the field of that row, and what it shows at
    every other index is as before. *)
Theorem typed_text_is_shown (node : NodeData) (s : State) (idx : nat) (row : NodeRow)
    (typed : jsstring) :
  text node !! idx = Some row ->
  isEditable row = true ->
  renderRows (Some node) (editedValues (setEditedValue idx typed s)) !! idx
  = Some (Some {| fieldIndex := idx; fieldLabel := keyOf row; fieldValue := typed |})
  /\ forall other, other <> idx ->
       renderRows (Some node) (editedValues (setEditedValue idx typed s)) !! other
       = renderRows (Some node) (editedValues s) !! other.
Proof.
  intros Hrow He. split.
  - rewrite renderRows_lookup, Hrow. simpl. rewrite He. unfold fieldOf.
    rewrite lookup_insert_eq. reflexivity.
  - intros other Hne. rewrite !renderRows_lookup.
    destruct (text node !! other) as [r|]; [|reflexivity]. simpl.
    destruct (isEditable r); [|reflexivity]. unfold fieldOf.
    rewrite lookup_insert_ne by congruence. reflexivity.
Qed.

(** Typing Carol into the field of the user node. *)
Lemma typed_text_is_shown_witness :
  renderRows (Some userNode) (editedValues (setEditedValue 0 (js "Carol") (editing ∅)))
    !! 0%nat
  = Some (Some {| fieldIndex := 0; fieldLabel := js "name"; fieldValue := js "Carol" |}).
Proof.
  destruct (typed_text_is_shown userNode (editing ∅) 0
              {| key := Some (js "name"); value := PString (js "Alice"); type := js "string" |}
              (js "Carol")) as [H _]; [reflexivity|vm_compute; reflexivity|].
  exact H.
Defined.

(** *** The display object *)

Lemma displayObject_step (rows : list NodeRow) (row : NodeRow) :
  displayObject (rows ++ [row])
  = if isEditable row then assignKey (displayObject rows) (keyOf row) (value row)
    else displayObject rows.
Proof. unfold displayObject. rewrite fold_left_app. reflexivity. Qed.

(** X16. In the display object the key of an editable row holds the value
    of that row, unless a later editable row has the same key: of rows that
    share a key the last one shows. *)
Theorem displayObject_last_wins (pre post : list NodeRow) (row : NodeRow) :
  isEditable row = true ->
  keyOf row <> js "__proto__" ->
  (forall r, r ∈ post -> isEditable r = true -> keyOf r <> keyOf row) ->
  obj_lookup (displayObject (pre ++ row :: post)) (keyOf row) = Some (value row).
Proof.
  intros He Hk. induction post as [|r post IH] using rev_ind; intros Hpost.
  - rewrite displayObject_step, He. unfold assignKey.
    rewrite decide_False by assumption. apply obj_define_lookup_eq.
  - change (pre ++ row :: post ++ [r]) with (pre ++ (row :: post) ++ [r]).
    rewrite app_assoc, displayObject_step.
    assert (obj_lookup (displayObject (pre ++ row :: post)) (keyOf row) = Some (value row))
      as Hl.
    { apply IH. intros r' Hr'. apply Hpost. apply elem_of_app. auto. }
    destruct (isEditable r) eqn:Her; [|exact Hl].
    unfold assignKey. destruct (decide _); [exact Hl|].
    rewrite obj_define_lookup_ne; [exact Hl|].
    intros Heq. eapply Hpost; [|exact Her|symmetry; exact Heq].
    apply elem_of_app. right. apply list_elem_of_singleton. reflexivity.
Qed.

(** Two rows with the key id, followed by a container row. *)
Lemma displayObject_last_wins_witness :
  obj_lookup
    (displayObject
       ([{| key := Some (js "id"); value := PNumber (number_of_Z 1); type := js "number" |}]
        ++ {| key := Some (js "id"); value := PNumber (number_of_Z 2); type := js "number" |}
        :: [{| key := Some (js "kids"); value := PString (js "[2 items]");
               type := js "array" |}]))
    (js "id")
  = Some (PNumber (number_of_Z 2)).
Proof.
  apply (displayObject_last_wins
           [{| key := Some (js "id"); value := PNumber (number_of_Z 1); type := js "number" |}]
           [{| key := Some (js "kids"); value := PString (js "[2 items]");
               type := js "array" |}]
           {| key := Some (js "id"); value := PNumber (number_of_Z 2); type := js "number" |}).
  - vm_compute. reflexivity.
  - discriminate.
  - intros r Hr. apply list_elem_of_singleton in Hr. subst r. discriminate.
Defined.

(** Rows that are not editable assign nothing. *)
Lemma displayObject_none (rows : list NodeRow) :
  (forall row, row ∈ rows -> isEditable row = false) -> displayObject rows = [].
Proof.
  induction rows as [|row rest IH] using rev_ind; intros Hrows; [reflexivity|].
  rewrite displayObject_step.
  rewrite (Hrows row) by (apply elem_of_app; right; apply list_elem_of_singleton; reflexivity).
  apply IH. intros r Hr. apply Hrows. apply elem_of_app. auto.
Qed.

(** X17. A node none of whose rows is editable, other than a single row
    without key, is displayed as the empty object. *)
Theorem no_editable_rows_display_empty (rows : list NodeRow) :
  (forall row, row ∈ rows -> isEditable row = false) ->
  (forall row, rows = [row] -> hasKey row = true) ->
  displayObject rows = [] /\ normalizeNodeData rows = js "{}".
Proof.
  intros Hrows Hscalar. pose proof (displayObject_none rows Hrows) as Hobj.
  split; [assumption|]. unfold normalizeNodeData.
  destruct rows as [|row rest]; [reflexivity|].
  rewrite Hobj. destruct rest as [|row' rest].
  - rewrite (Hscalar row eq_refl). reflexivity.
  - reflexivity.
Qed.

(** A container row and a details row. *)
Lemma no_editable_rows_display_empty_witness :
  normalizeNodeData
    [{| key := Some (js "items"); value := PString (js "[3 items]"); type := js "array" |};
     {| key := Some (js "details"); value := PString (js "more"); type := js "string" |}]
  = js "{}".
Proof.
  apply no_editable_rows_display_empty.
  - intros row Hrow. apply elem_of_cons in Hrow as [->|Hrow]; [reflexivity|].
    apply list_elem_of_singleton in Hrow. subst row. vm_compute. reflexivity.
  - intros row [=].
Defined.

(** *** Paths of children *)

(** The text of a path is "$" followed by its bracketed segments. *)
Lemma jsonPathToString_brackets (path : list segment) :
  jsonPathToString (Some path) = js "$" ++ concat (map bracketed path).
Proof.
  destruct path as [|p rest]; [reflexivity|]. unfold jsonPathToString.
  change (js "$[") with (js "$" ++ js "["). rewrite <- app_assoc.
  f_equal. apply bracketed_join.
Qed.

(** X18. The text of the path of a child is the text of the path of its
    parent followed by the bracketed last segment. *)
Theorem jsonPathToString_child (path : list segment) (seg : segment) :
  jsonPathToString (Some (path ++ [seg]))
  = jsonPathToString (Some path) ++ bracketed seg.
Proof.
  rewrite !jsonPathToString_brackets, map_app, concat_app.
  cbn [map concat]. rewrite app_nil_r, <- app_assoc. reflexivity.
Qed.

End NodeModal.
